(** * deepq-grasping: the action optimizers of [agent.py]

    A shallow embedding of [Agent] (src/agent.py): the Q-value head
    [_forward_q], the cross-entropy optimizer [_cem_optimizer], the uniform
    optimizer [_uniform_optimizer], and the two entry points [choose_action]
    and [forward].

    Tensors hold IEEE binary32 numbers (torch's default dtype), modelled with
    the Standard Library's [spec_float], so that NaN and the infinities
    behave as at run time.  Python ints are [Z].  The torch primitives the
    file calls ([zeros], [expand], [view], [clamp], [topk], [max], [mean],
    [std], [normal], [uniform_], indexing) are modelled after their
    documented behaviour, errors included; as in the torch releases the file
    was written for, [normal] and [uniform_] compute from whatever parameters
    they are given.  The convolutional feature extractor and the values of
    the learned weights are parameters of the agent.  The global random
    number generator is an explicit state, and an exception leaves that
    state as it was when raised.

    The feature extractor itself, [StateNetwork], is embedded after the
    agent: its three rounds of convolution, ReLU and pooling, and the time
    step it appends as a channel. *)

From Stdlib Require Import ZArith List Bool Lia SpecFloat ZifyNat.
From stdpp Require Import base list.
Import ListNotations.

(** ** Binary32 scalars *)

Module F32.

Definition prec : Z := 24.
Definition emax : Z := 128.

Definition t : Type := spec_float.

Definition add : t -> t -> t := SFadd prec emax.
Definition sub : t -> t -> t := SFsub prec emax.
Definition mul : t -> t -> t := SFmul prec emax.
Definition div : t -> t -> t := SFdiv prec emax.
Definition sqrt : t -> t := SFsqrt prec emax.

Definition ltb : t -> t -> bool := SFltb.
Definition leb : t -> t -> bool := SFleb.

(** Conversion of a Python int (round to nearest even). *)
Definition of_Z (z : Z) : t := binary_normalize prec emax z 0 false.

Definition zero : t := S754_zero false.
Definition one : t := Eval vm_compute in of_Z 1.

Definition is_nan (x : t) : bool :=
  match x with S754_nan => true | _ => false end.

Definition is_finite (x : t) : bool :=
  match x with S754_zero _ | S754_finite _ _ _ => true | _ => false end.

(** A well-formed binary32 datum: canonical mantissa, exponent in range. *)
Definition valid (x : t) : bool := valid_binary prec emax x.

(** The strict order of torch's [max], [topk] and [sort]: a NaN ranks above
    every number, numbers rank by [<]. *)
Definition gtb (x y : t) : bool :=
  (is_nan x && negb (is_nan y)) || ltb y x.

(** [x] ranks no higher than [y]. *)
Definition rank_le (x y : t) : Prop := gtb x y = false.

(** A key whose lexicographic order is the rank order. *)
Definition key (x : t) : Z * Z * Z :=
  match x with
  | S754_nan => (3, 0, 0)
  | S754_infinity false => (2, 0, 0)
  | S754_infinity true => (-2, 0, 0)
  | S754_zero _ => (0, 0, 0)
  | S754_finite false m e => (1, e, Zpos m)
  | S754_finite true m e => (-1, - e, Zneg m)
  end%Z.

Definition lex_lt (p q : Z * Z * Z) : Prop :=
  let '(a, b, c) := p in
  let '(a', b', c') := q in
  (a < a' \/ (a = a' /\ (b < b' \/ (b = b' /\ c < c'))))%Z.

End F32.

Abbreviation F := F32.t.

(** ** Tensors *)

Abbreviation Vec := (list F).                  (* shape (n)          *)
Abbreviation Mat := (list Vec).                (* shape (n, m)       *)
Abbreviation Tensor3 := (list Mat).            (* shape (b, n, m)    *)
Abbreviation Tensor4 := (list Tensor3).        (* shape (b, c, h, w) *)

(** ** Exceptions and the generator state *)

Inductive error :=
| NegativeDimension   (* a tensor is created with a negative size *)
| ExpandError         (* expand / expand_as on sizes that do not broadcast *)
| ShapeMismatch       (* a layer or an assignment receives the wrong shape *)
| TopkOutOfRange      (* torch.topk: k is not within the dimension *)
| EmptyReduction      (* max over a dimension without elements *)
| AmbiguousView       (* view(0, -1): the size -1 cannot be inferred *)
| IndexOutOfRange.    (* an index tensor points outside its operand *)

Inductive result (A : Type) :=
| Ok (x : A)
| Err (e : error).
Arguments Ok {A} x.
Arguments Err {A} e.

Definition rbind {A B} (r : result A) (f : A -> result B) : result B :=
  match r with
  | Ok x => f x
  | Err e => Err e
  end.

Fixpoint rmapM {A B} (f : A -> result B) (l : list A) : result (list B) :=
  match l with
  | [] => Ok []
  | x :: l' => rbind (f x) (fun y => rbind (rmapM f l') (fun ys => Ok (y :: ys)))
  end.

(** torch's default generator: the standard-normal and unit-uniform numbers it
    will hand out, and how many have been consumed so far. *)
Record Generator := mkGenerator {
  gauss : nat -> F;
  unif : nat -> F;
  cursor : nat
}.

Definition advance (n : nat) (g : Generator) : Generator :=
  {| gauss := gauss g; unif := unif g; cursor := cursor g + n |}.

(** A computation that may draw random numbers and may raise. *)
Definition M (A : Type) : Type := Generator -> result A * Generator.

Definition ret {A} (x : A) : M A := fun g => (Ok x, g).

Definition bind {A B} (m : M A) (f : A -> M B) : M B :=
  fun g =>
    match m g with
    | (Ok x, g') => f x g'
    | (Err e, g') => (Err e, g')
    end.

Definition lift {A} (r : result A) : M A := fun g => (r, g).

Declare Scope torch_scope.
Delimit Scope torch_scope with torch.
Notation "'let?' x ':=' r 'in' k" := (rbind r (fun x => k))
  (at level 10, x name, r at level 100, k at level 200) : torch_scope.
Notation "x <- m ;; k" := (bind m (fun x => k))
  (at level 100, m at next level, right associativity) : torch_scope.
Local Open Scope torch_scope.

(** ** torch primitives *)

Module torch.

(** [torch.zeros(r, c)] and [torch.zeros((b, r, c))]. *)
Definition zeros2 (r c : Z) : result Mat :=
  if ((r <? 0) || (c <? 0))%Z then Err NegativeDimension
  else Ok (replicate (Z.to_nat r) (replicate (Z.to_nat c) F32.zero)).

Definition zeros3 (b r c : Z) : result Tensor3 :=
  if ((b <? 0) || (r <? 0) || (c <? 0))%Z then Err NegativeDimension
  else Ok (replicate (Z.to_nat b)
             (replicate (Z.to_nat r) (replicate (Z.to_nat c) F32.zero))).

Definition ones_like (m : Mat) : Mat := map (map (fun _ => F32.one)) m.

(** One dimension of [Tensor.expand]: the size [-1] keeps the dimension, a
    dimension of size 1 is replicated, any other size must already match. *)
Definition expand_dim {A} (src : list A) (target : Z) : result (list A) :=
  if (target =? -1)%Z then Ok src
  else if (target <? 0)%Z then Err ExpandError
  else if (Z.of_nat (length src) =? target)%Z then Ok src
  else match src with
       | [x] => Ok (replicate (Z.to_nat target) x)
       | _ => Err ExpandError
       end.

(** [m.expand(r, c)] on a matrix. *)
Definition expand2 (m : Mat) (r c : Z) : result Mat :=
  let? rows := rmapM (fun row => expand_dim row c) m in
  expand_dim rows r.

(** [x.clamp(lo, hi)], elementwise [min(max(x, lo), hi)]; NaN stays NaN. *)
Definition clamp1 (lo hi x : F) : F :=
  let y := if F32.ltb x lo then lo else x in
  if F32.ltb hi y then hi else y.

Definition clamp (lo hi : F) (m : Mat) : Mat := map (map (clamp1 lo hi)) m.

(** [F.relu]. *)
Definition relu1 (x : F) : F := if F32.ltb x F32.zero then F32.zero else x.

Definition relu (m : Mat) : Mat := map (map relu1) m.

(** Sum, mean and Bessel-corrected standard deviation of one column. *)
Definition sum (l : Vec) : F := fold_left F32.add l F32.zero.

Definition mean1 (l : Vec) : F :=
  F32.div (sum l) (F32.of_Z (Z.of_nat (length l))).

Definition std1 (l : Vec) : F :=
  let m := mean1 l in
  let dev := map (fun x => let d := F32.sub x m in F32.mul d d) l in
  F32.sqrt (F32.div (sum dev) (F32.of_Z (Z.max 0 (Z.of_nat (length l) - 1)))).

(** Column [d] of a matrix. *)
Definition column (d : nat) (m : Mat) : Vec :=
  map (fun row => nth d row F32.zero) m.

(** [m.mean(dim=0, keepdim=True)] and [m.std(dim=0, keepdim=True)] on a
    matrix with [w] columns: shape (1, w). *)
Definition mean0 (w : nat) (m : Mat) : Mat :=
  [map (fun d => mean1 (column d m)) (seq 0 w)].

Definition std0 (w : nat) (m : Mat) : Mat :=
  [map (fun d => std1 (column d m)) (seq 0 w)].

(** Position of the first element that no other element outranks. *)
Fixpoint argmax_from (best_i : nat) (best : F) (i : nat) (l : Vec) : nat :=
  match l with
  | [] => best_i
  | v :: l' =>
      if F32.gtb v best then argmax_from i v (S i) l'
      else argmax_from best_i best (S i) l'
  end.

Definition argmax (l : Vec) : result nat :=
  match l with
  | [] => Err EmptyReduction
  | v :: l' => Ok (argmax_from 0 v 1 l')
  end.

(** [q.max(0)[1]]: per column, the row index of the maximum. *)
Definition max0_indices (q : Mat) : result (list nat) :=
  match q with
  | [] => Err EmptyReduction
  | row :: _ => rmapM (fun d => argmax (column d q)) (seq 0 (length row))
  end.

(** [torch.topk(q, k)[1]]: the indices of the [k] highest-ranking entries,
    best first; among equals the lower index comes first. *)
Fixpoint best_entry (best : nat * F) (l : list (nat * F)) : nat * F :=
  match l with
  | [] => best
  | e :: l' => best_entry (if F32.gtb (snd e) (snd best) then e else best) l'
  end.

Fixpoint remove_entry (i : nat) (l : list (nat * F)) : list (nat * F) :=
  match l with
  | [] => []
  | e :: l' => if Nat.eqb (fst e) i then l' else e :: remove_entry i l'
  end.

Fixpoint select (k : nat) (l : list (nat * F)) : list nat :=
  match k, l with
  | S k', e :: l' =>
      let b := best_entry e l' in
      fst b :: select k' (remove_entry (fst b) l)
  | _, _ => []
  end.

Definition enumerate (q : Vec) : list (nat * F) :=
  combine (seq 0 (length q)) q.

Definition topk_indices (q : Vec) (k : Z) : result (list nat) :=
  if ((k <? 0) || (Z.of_nat (length q) <? k))%Z then Err TopkOutOfRange
  else Ok (select (Z.to_nat k) (enumerate q)).

(** [m[idx]] with an index tensor: the selected rows. *)
Definition index_rows (m : Mat) (idx : list nat) : result Mat :=
  rmapM (fun i => match m !! i with
                  | Some row => Ok row
                  | None => Err IndexOutOfRange
                  end) idx.

(** [torch.normal(mean, std)]: a standard-normal draw per element, in
    row-major order, scaled by [std] and shifted by [mean]. *)
Definition normal_row (g : Generator) (start : nat) (mean std : Vec) : Vec :=
  imap (fun d ms => F32.add (F32.mul (gauss g (start + d)) (snd ms)) (fst ms))
       (combine mean std).

Fixpoint normal_rows (g : Generator) (start : nat) (rows : list (Vec * Vec))
  : Mat :=
  match rows with
  | [] => []
  | (mean, std) :: rows' =>
      normal_row g start mean std
        :: normal_rows g (start + length (combine mean std)) rows'
  end.

Definition numel2 (rows : list (Vec * Vec)) : nat :=
  fold_right (fun ms n => length (combine (fst ms) (snd ms)) + n) 0 rows.

Definition normal (mean std : Mat) : M Mat := fun g =>
  let rows := combine mean std in
  (Ok (normal_rows g (cursor g) rows), advance (numel2 rows) g).

(** [t.uniform_(lo, hi)] on a tensor of shape (b, n, w): every element is
    replaced by [u * (hi - lo) + lo] for a fresh unit-uniform draw [u]. *)
Definition uniform1 (lo hi u : F) : F :=
  F32.add (F32.mul u (F32.sub hi lo)) lo.

Definition numel3 (t : Tensor3) : nat :=
  fold_right (fun cands n => fold_right (fun cand k => length cand + k) n cands) 0 t.

Definition uniform_ (lo hi : F) (t : Tensor3) : M Tensor3 := fun g =>
  (Ok (imap (fun i cands =>
         imap (fun j cand =>
           imap (fun d _ =>
                   uniform1 lo hi
                     (unif g (cursor g + (i * length cands + j) * length cand + d)))
                cand) cands) t),
   advance (numel3 t) g).

End torch.

(** ** Layers *)

(** [nn.Linear]: [weight] has one row per output feature. *)
Record Linear := mkLinear {
  in_features : nat;
  weight : Mat;
  bias : Vec
}.

Definition dot (w x : Vec) : F :=
  fold_left (fun acc wx => F32.add acc (F32.mul (fst wx) (snd wx)))
            (combine w x) F32.zero.

(** [x W^T + b] for one row [x]. *)
Definition linear_fun (l : Linear) (x : Vec) : Vec :=
  zip_with (fun w b => F32.add (dot w x) b) (weight l) (bias l).

Definition linear_row (l : Linear) (x : Vec) : result Vec :=
  if Nat.eqb (length x) (in_features l) then Ok (linear_fun l x)
  else Err ShapeMismatch.

Definition linear (l : Linear) (m : Mat) : result Mat := rmapM (linear_row l) m.

(** [ActionNetwork.forward]. *)
Definition ActionNetwork_forward (fc1 : Linear) (input : Mat) : result Mat :=
  let? out := linear fc1 input in
  Ok (torch.relu out).

(** The sub-modules [Agent.__init__] builds.  [state_net] is the convolutional
    feature extractor ([StateNetwork.forward]), a stack of torch layers. *)
Record Networks := mkNetworks {
  net_state : Tensor4 -> Vec -> result Tensor4;
  net_action : Linear;
  net_fc1 : Linear;
  net_fc2 : Linear;
  net_fc3 : Linear
}.

(** ** The agent *)

Record Agent := mkAgent {
  action_size : Z;
  num_uniform : Z;
  num_cem : Z;
  cem_iter : Z;
  cem_elite : Z;
  bounds : F * F;
  state_net : Tensor4 -> Vec -> result Tensor4;
  action_net : Linear;
  fc1 : Linear;
  fc2 : Linear;
  fc3 : Linear
}.

(** [Agent.__init__].  [build in_channels out_channels action_size] stands for
    the torch constructors of the sub-modules, which see these three sizes
    only; the other arguments are stored as they come. *)
Definition __init__ (build : Z -> Z -> Z -> result Networks)
    (in_channels out_channels action_size num_uniform num_cem cem_iter cem_elite : Z)
    (bounds : F * F) : result Agent :=
  let? nets := build in_channels out_channels action_size in
  Ok {| action_size := action_size;
        num_uniform := num_uniform;
        num_cem := num_cem;
        cem_iter := cem_iter;
        cem_elite := cem_elite;
        bounds := bounds;
        state_net := net_state nets;
        action_net := net_action nets;
        fc1 := net_fc1 nets;
        fc2 := net_fc2 nets;
        fc3 := net_fc3 nets |}.

(** [out.unsqueeze(2).unsqueeze(3).expand_as(hidden)]: the value of
    [out[n][c]] at every position of plane [c] of sample [n]. *)
Definition spread (chans : Vec) (sample : Tensor3) : Tensor3 :=
  zip_with (fun v plane => map (map (fun _ => v)) plane) chans sample.

Definition expand_as (out : Mat) (hidden : Tensor4) : result Tensor4 :=
  let? rows := torch.expand_dim out (Z.of_nat (length hidden)) in
  rmapM (fun rs =>
           let? chans := torch.expand_dim (fst rs) (Z.of_nat (length (snd rs))) in
           Ok (spread chans (snd rs)))
        (combine rows hidden).

Definition tensor_add (x y : Tensor4) : Tensor4 :=
  zip_with (zip_with (zip_with (zip_with F32.add))) x y.

(** [t.view(t.size(0), -1)]; on a tensor without rows the size [-1] cannot be
    inferred and torch raises. *)
Definition flatten (t : Tensor4) : result Mat :=
  match t with
  | [] => Err AmbiguousView
  | _ => Ok (map (fun sample => concat (concat sample)) t)
  end.

(** [Agent._forward_q]: the Q-value of each (state, action) row, shape (n, 1)
    when [fc3] has one output. *)
Definition _forward_q (a : Agent) (hidden : Tensor4) (action : Mat) : result Mat :=
  let? out := ActionNetwork_forward (action_net a) action in
  let? out := expand_as out hidden in
  let? out := flatten (tensor_add hidden out) in
  let? out := linear (fc1 a) out in
  let out := torch.relu out in
  let? out := linear (fc2 a) out in
  let out := torch.relu out in
  linear (fc3 a) out.

(** Column count of a tensor created with [action_size] columns. *)
Definition width (a : Agent) : nat := Z.to_nat (action_size a).

(** The loop body of [Agent._cem_optimizer], in three parts: the candidates
    (lines 103-107), the rows [action[topk]] (lines 110-113), and the new
    [(mu, std)] (lines 115-116). *)
Definition cem_sample (a : Agent) (mu std : Mat) : M Mat :=
  let size := (num_cem a, action_size a) in
  mean_e <- lift (torch.expand2 mu (fst size) (snd size)) ;;
  std_e <- lift (torch.expand2 std (fst size) (snd size)) ;;
  action <- torch.normal mean_e std_e ;;
  ret (torch.clamp (fst (bounds a)) (snd (bounds a)) action).

Definition cem_elite_rows (a : Agent) (hidden : Tensor4) (action : Mat)
  : result Mat :=
  let? q := _forward_q a hidden action in
  let q := concat q in
  let? topk := torch.topk_indices q (cem_elite a) in
  torch.index_rows action topk.

Definition cem_step (a : Agent) (hidden : Tensor4) (mu std : Mat) : M (Mat * Mat) :=
  action <- cem_sample a mu std ;;
  elite <- lift (cem_elite_rows a hidden action) ;;
  ret (torch.mean0 (width a) elite, torch.std0 (width a) elite).

(** [for _ in range(n)] around the body, threading [(mu, std)]. *)
Fixpoint cem_loop (a : Agent) (hidden : Tensor4) (n : nat) (mu std : Mat)
  : M (Mat * Mat) :=
  match n with
  | O => ret (mu, std)
  | S n' =>
      ms <- cem_step a hidden mu std ;;
      cem_loop a hidden n' (fst ms) (snd ms)
  end.

(** [Agent._cem_optimizer]. *)
Definition _cem_optimizer (a : Agent) (hidden : Tensor4) : M Mat :=
  hidden <- lift (torch.expand_dim hidden (num_cem a)) ;;
  mu <- lift (torch.zeros2 1 (action_size a)) ;;
  let std := torch.ones_like mu in
  ms <- cem_loop a hidden (Z.to_nat (cem_iter a)) mu std ;;
  ret (fst ms).

(** [outputs[i] = rows], where [rows] has shape (1, w): leading dimensions of
    size one are dropped, the rest must match the slot. *)
Definition setitem (outputs : Mat) (i : nat) (rows : Mat) : result Mat :=
  match rows, outputs !! i with
  | [row], Some old =>
      if Nat.eqb (length row) (length old) then Ok (<[i := row]> outputs)
      else Err ShapeMismatch
  | _, Some _ => Err ShapeMismatch
  | _, None => Err IndexOutOfRange
  end.

(** The loop body of [Agent._uniform_optimizer]: the rows
    [actions[i, q.max(0)[1]]] (lines 143-147), then the store into
    [outputs[i]]. *)
Definition uniform_best (a : Agent) (hidden : Tensor4) (actions : Tensor3)
    (i : nat) : result Mat :=
  let? hidden_ := torch.expand_dim (take 1 (drop i hidden)) (num_uniform a) in
  let? cand := match actions !! i with
               | Some c => Ok c
               | None => Err IndexOutOfRange
               end in
  let? q := _forward_q a hidden_ cand in
  let? idx := torch.max0_indices q in
  torch.index_rows cand idx.

Definition uniform_step (a : Agent) (hidden : Tensor4) (actions : Tensor3)
    (outputs : Mat) (i : nat) : result Mat :=
  let? best := uniform_best a hidden actions i in
  setitem outputs i best.

(** [for i in order] around the body; the source runs [order = range(b)]. *)
Fixpoint uniform_loop (a : Agent) (hidden : Tensor4) (actions : Tensor3)
    (order : list nat) (outputs : Mat) : result Mat :=
  match order with
  | [] => Ok outputs
  | i :: order' =>
      let? outputs := uniform_step a hidden actions outputs i in
      uniform_loop a hidden actions order' outputs
  end.

(** The pre-computed samples (lines 135-138), shape (b, num_uniform,
    action_size). *)
Definition uniform_samples (a : Agent) (b : Z) : M Tensor3 :=
  actions <- lift (torch.zeros3 b (num_uniform a) (action_size a)) ;;
  torch.uniform_ (fst (bounds a)) (snd (bounds a)) actions.

(** [Agent._uniform_optimizer]. *)
Definition _uniform_optimizer (a : Agent) (hidden : Tensor4) : M Mat :=
  let b := Z.of_nat (length hidden) in
  outputs <- lift (torch.zeros2 b (action_size a)) ;;
  actions <- uniform_samples a b ;;
  lift (uniform_loop a hidden actions (seq 0 (length hidden)) outputs).

(** [Agent.choose_action], on an image and a time already held as tensors. *)
Definition choose_action (a : Agent) (image : Tensor4) (cur_time : Vec)
    (use_cem : bool) : M Mat :=
  hidden <- lift (state_net a image cur_time) ;;
  if use_cem then _cem_optimizer a hidden else _uniform_optimizer a hidden.

(** [Agent.forward]. *)
Definition forward (a : Agent) (image : Tensor4) (cur_time : Vec)
    (action : option Mat) : M Mat :=
  hidden <- lift (state_net a image cur_time) ;;
  action <- match action with
            | None => _uniform_optimizer a hidden
            | Some act => ret act
            end ;;
  lift (_forward_q a hidden action).

(** ** Vocabulary of the statements *)

(** [lo <= x <= hi] in binary32; false when any of the three is NaN. *)
Definition in_bounds (lo hi x : F) : Prop :=
  F32.leb lo x = true /\ F32.leb x hi = true.

Definition all_in_bounds (lo hi : F) (m : Mat) : Prop :=
  Forall (Forall (in_bounds lo hi)) m.

Definition nan_or_in_bounds (lo hi x : F) : Prop :=
  x = S754_nan \/ in_bounds lo hi x.

(** The configurations the interface admits. *)
Definition valid_config (a : Agent) : Prop :=
  (0 < action_size a)%Z /\ (0 < num_uniform a)%Z /\ (0 < num_cem a)%Z /\
  (0 <= cem_iter a)%Z /\ (1 <= cem_elite a <= num_cem a)%Z /\
  F32.ltb (fst (bounds a)) (snd (bounds a)) = true.

(** Shapes. *)
Definition shape2 (n w : nat) (m : Mat) : Prop :=
  length m = n /\ Forall (fun row => length row = w) m.

Definition shape3 (c h w : nat) (t : Tensor3) : Prop :=
  length t = c /\ Forall (shape2 h w) t.

Definition shape4 (b c h w : nat) (t : Tensor4) : Prop :=
  length t = b /\ Forall (shape3 c h w) t.

(** [nn.Linear(i, o)]. *)
Definition linear_shape (i o : nat) (l : Linear) : Prop :=
  in_features l = i /\ length (weight l) = o /\ length (bias l) = o.

(** The layer sizes [Agent.__init__] asks for (lines 57-64), for
    [out_channels = oc]; the matching state embeddings have shape
    (b, oc + 1, 7, 7). *)
Definition built_for (oc : nat) (a : Agent) : Prop :=
  linear_shape (width a) (oc + 1) (action_net a) /\
  linear_shape (7 * 7 * (oc + 1)) oc (fc1 a) /\
  linear_shape oc oc (fc2 a) /\
  linear_shape oc 1 (fc3 a).

(** Record updates. *)
Definition with_bounds (a : Agent) (b : F * F) : Agent :=
  {| action_size := action_size a; num_uniform := num_uniform a;
     num_cem := num_cem a; cem_iter := cem_iter a; cem_elite := cem_elite a;
     bounds := b;
     state_net := state_net a; action_net := action_net a;
     fc1 := fc1 a; fc2 := fc2 a; fc3 := fc3 a |}.

Definition with_cem (a : Agent) (n_cem iter elite : Z) : Agent :=
  {| action_size := action_size a; num_uniform := num_uniform a;
     num_cem := n_cem; cem_iter := iter; cem_elite := elite;
     bounds := bounds a;
     state_net := state_net a; action_net := action_net a;
     fc1 := fc1 a; fc2 := fc2 a; fc3 := fc3 a |}.

Definition with_gauss (g : Generator) (z : nat -> F) : Generator :=
  {| gauss := z; unif := unif g; cursor := cursor g |}.

(** The candidates the uniform optimizer draws for state [i]: [num_uniform]
    rows of [action_size] fresh uniform numbers, from a cursor range of their
    own. *)
Definition uniform_candidates (a : Agent) (g : Generator) (i : nat) : Mat :=
  map (fun j =>
         map (fun d =>
                torch.uniform1 (fst (bounds a)) (snd (bounds a))
                  (unif g (cursor g
                           + (i * Z.to_nat (num_uniform a) + j) * width a + d)))
             (seq 0 (width a)))
      (seq 0 (Z.to_nat (num_uniform a))).

(** [k] is a position of a highest-ranking score. *)
Definition is_argmax (scores : Vec) (k : nat) : Prop :=
  exists sk, scores !! k = Some sk /\
             forall j sj, scores !! j = Some sj -> F32.rank_le sj sk.

(** The candidates [cem_sample] draws from [(mean, std)], in closed form. *)
Definition cem_draws (a : Agent) (g : Generator) (mean std : Vec) : Mat :=
  map (fun j =>
         map (fun d =>
                torch.clamp1 (fst (bounds a)) (snd (bounds a))
                  (F32.add (F32.mul (gauss g (cursor g + j * width a + d))
                                    (nth d std F32.zero))
                           (nth d mean F32.zero)))
             (seq 0 (width a)))
      (seq 0 (Z.to_nat (num_cem a))).

(** The draw [_cem_optimizer] uses in iteration [t] for candidate [j],
    dimension [d]. *)
Definition cem_draw_of (a : Agent) (g : Generator) (t j d : nat) : F :=
  gauss g (cursor g + (t * Z.to_nat (num_cem a) + j) * width a + d).

(** ** The cross-entropy method as the specification words it

    Section 4.2: start from mean 0 and std 1; each iteration draws [num_cem]
    candidates from the per-dimension Gaussian and clamps them, scores them
    in one batched call on the replicated embedding, keeps the [cem_elite]
    highest-scoring ones, and re-estimates mean and std from them; the final
    mean is the answer. *)

Module Spec.
Section CrossEntropy.

Variable a : Agent.
Variable emb : Tensor3.
(** [z t j d]: the standard-normal draw of iteration [t] for candidate [j],
    dimension [d]. *)
Variable z : nat -> nat -> nat -> F.

Let lo := fst (bounds a).
Let hi := snd (bounds a).
Let dims := seq 0 (Z.to_nat (action_size a)).

Definition gaussian (mean std : Vec) (t j d : nat) : F :=
  F32.add (F32.mul (z t j d) (nth d std F32.zero)) (nth d mean F32.zero).

Definition candidate (mean std : Vec) (t j : nat) : Vec :=
  map (fun d => torch.clamp1 lo hi (gaussian mean std t j d)) dims.

Definition candidates (mean std : Vec) (t : nat) : Mat :=
  map (candidate mean std t) (seq 0 (Z.to_nat (num_cem a))).

Definition scores (cands : Mat) : result Vec :=
  let? q := _forward_q a (replicate (Z.to_nat (num_cem a)) emb) cands in
  Ok (concat q).

(** [idx] names [cem_elite] distinct candidates, none of which is outranked
    by a candidate left out. *)
Definition is_elite (sc : Vec) (idx : list nat) : Prop :=
  length idx = Z.to_nat (cem_elite a) /\
  NoDup idx /\
  (forall i, In i idx -> i < length sc) /\
  (forall i j si sj, In i idx -> ~ In j idx ->
                     sc !! i = Some si -> sc !! j = Some sj ->
                     F32.rank_le sj si).

Definition elite_column (cands : Mat) (idx : list nat) (d : nat) : Vec :=
  map (fun i => nth d (nth i cands []) F32.zero) idx.

Definition sample_mean (cands : Mat) (idx : list nat) : Vec :=
  map (fun d => torch.mean1 (elite_column cands idx d)) dims.

Definition sample_std (cands : Mat) (idx : list nat) : Vec :=
  map (fun d => torch.std1 (elite_column cands idx d)) dims.

(** [iterate t n mean std mean' std']: [n] iterations, numbered from [t],
    lead from [(mean, std)] to [(mean', std')]. *)
Inductive iterate : nat -> nat -> Vec -> Vec -> Vec -> Vec -> Prop :=
| iterate_done t mean std : iterate t 0 mean std mean std
| iterate_step t n mean std sc idx mean' std' :
    scores (candidates mean std t) = Ok sc ->
    is_elite sc idx ->
    iterate (S t) n (sample_mean (candidates mean std t) idx)
                    (sample_std (candidates mean std t) idx) mean' std' ->
    iterate t (S n) mean std mean' std'.

Definition cem (action : Vec) : Prop :=
  exists std,
    iterate 0 (Z.to_nat (cem_iter a))
            (map (fun _ => F32.zero) dims) (map (fun _ => F32.one) dims)
            action std.

End CrossEntropy.
End Spec.

(** ** A small agent to run the code on

    [out_channels = 1], [action_size = 1]; the embedding is all zeros and the
    weights make the Q-value of an action [x] equal to [-|x|]. *)

Module Demo.

Definition num (n d : Z) : F := F32.div (F32.of_Z n) (F32.of_Z d).

Definition plane : Mat := replicate 7 (replicate 7 F32.zero).
Definition embedding : Tensor3 := [plane; plane].

(** A second embedding, all ones. *)
Definition other_embedding : Tensor3 :=
  [replicate 7 (replicate 7 F32.one); replicate 7 (replicate 7 F32.one)].

Definition nets : Networks :=
  {| net_state := fun image _ => Ok (map (fun _ => embedding) image);
     net_action := {| in_features := 1;
                      weight := [[F32.one]; [F32.of_Z (-1)]];
                      bias := [F32.zero; F32.zero] |};
     net_fc1 := {| in_features := 98;
                   weight := [(F32.one :: replicate 48 F32.zero)
                                ++ (F32.one :: replicate 48 F32.zero)];
                   bias := [F32.zero] |};
     net_fc2 := {| in_features := 1; weight := [[F32.one]]; bias := [F32.zero] |};
     net_fc3 := {| in_features := 1; weight := [[F32.of_Z (-1)]];
                   bias := [F32.zero] |} |}.

Definition build (in_channels out_channels action_size : Z) : result Networks :=
  Ok nets.

Definition agent (n_uniform n_cem iter elite : Z) (lo hi : F) : Agent :=
  {| action_size := 1; num_uniform := n_uniform; num_cem := n_cem;
     cem_iter := iter; cem_elite := elite; bounds := (lo, hi);
     state_net := net_state nets; action_net := net_action nets;
     fc1 := net_fc1 nets; fc2 := net_fc2 nets; fc3 := net_fc3 nets |}.

(** Standard-normal draws -1, -1/2, 0, 1/2, ...; unit-uniform draws
    0, 1/4, 1/2, 3/4, 0, ... *)
Definition gen : Generator :=
  {| gauss := fun n => num (Z.of_nat n - 2) 2;
     unif := fun n => num (Z.of_nat (n mod 4)) 4;
     cursor := 0 |}.

Definition minus_one : F := Eval vm_compute in F32.of_Z (-1).
Definition two : F := Eval vm_compute in F32.of_Z 2.

End Demo.

(** ** The state network

    [StateNetwork] (lines 9-32): three rounds of convolution, ReLU and 2 x 2
    max-pooling, then the time step appended as one more channel.  The
    layers are torch's: stride 1, zero padding, pooling windows that do not
    fit are dropped. *)

Module nn.

(** [nn.Conv2d(in_channels, out_channels, kernel_size, padding=p)];
    [conv_weight] has shape (out_channels, in_channels, k, k). *)
Record Conv2d := mkConv2d {
  in_channels : nat;
  kernel_size : nat;
  padding : nat;
  conv_weight : Tensor4;
  conv_bias : Vec
}.

(** Sizes of the planes of a sample, read off its first plane. *)
Definition height (sample : Tensor3) : nat := length (hd [] sample).

Definition plane_width (sample : Tensor3) : nat := length (hd [] (hd [] sample)).

(** Entry (r, c) of a plane padded with [p] zeros on every side. *)
Definition padded (p : nat) (plane : Mat) (r c : nat) : F :=
  if (r <? p) || (c <? p) then F32.zero
  else nth (c - p) (nth (r - p) plane []) F32.zero.

(** One filter against the window whose corner is (i, j). *)
Definition correlate (c : Conv2d) (filter sample : Tensor3) (i j : nat) : F :=
  fold_left
    (fun acc ch =>
       fold_left
         (fun acc di =>
            fold_left
              (fun acc dj =>
                 F32.add acc
                   (F32.mul (nth dj (nth di (nth ch filter []) []) F32.zero)
                            (padded (padding c) (nth ch sample []) (i + di) (j + dj))))
              (seq 0 (kernel_size c)) acc)
         (seq 0 (kernel_size c)) acc)
    (seq 0 (in_channels c)) F32.zero.

Definition conv2d_sample (c : Conv2d) (sample : Tensor3) : result Tensor3 :=
  let h := height sample + 2 * padding c in
  let w := plane_width sample + 2 * padding c in
  if negb (length sample =? in_channels c) then Err ShapeMismatch
  else if (h <? kernel_size c) || (w <? kernel_size c) then Err ShapeMismatch
  else Ok (zip_with
             (fun filter b =>
                map (fun i =>
                       map (fun j => F32.add (correlate c filter sample i j) b)
                           (seq 0 (w - kernel_size c + 1)))
                    (seq 0 (h - kernel_size c + 1)))
             (conv_weight c) (conv_bias c)).

Definition conv2d (c : Conv2d) (x : Tensor4) : result Tensor4 :=
  rmapM (conv2d_sample c) x.

(** [nn.ReLU] on a batch of samples. *)
Definition relu4 (x : Tensor4) : Tensor4 := map (map torch.relu) x.

(** [nn.MaxPool2d(2)]: the maximum of every 2 x 2 block; a NaN wins. *)
Definition fmax (x y : F) : F := if F32.gtb y x then y else x.

Definition max_pool_plane (plane : Mat) : result Mat :=
  let h := length plane in
  let w := length (hd [] plane) in
  let entry r c := nth c (nth r plane []) F32.zero in
  if (h <? 2) || (w <? 2) then Err ShapeMismatch
  else Ok (map (fun i =>
                  map (fun j =>
                         fmax (fmax (fmax (entry (2 * i) (2 * j))
                                          (entry (2 * i) (2 * j + 1)))
                                    (entry (2 * i + 1) (2 * j)))
                              (entry (2 * i + 1) (2 * j + 1)))
                      (seq 0 (w / 2)))
               (seq 0 (h / 2))).

Definition max_pool2d (x : Tensor4) : result Tensor4 :=
  rmapM (rmapM max_pool_plane) x.

End nn.

(** The three convolutions [StateNetwork.__init__] builds. *)
Record StateNetwork := mkStateNetwork {
  conv1 : nn.Conv2d;
  conv2 : nn.Conv2d;
  conv3 : nn.Conv2d
}.

(** [self.net], the [nn.Sequential] of lines 13-22. *)
Definition StateNetwork_net (s : StateNetwork) (image : Tensor4) : result Tensor4 :=
  let? x := nn.conv2d (conv1 s) image in
  let? x := nn.max_pool2d (nn.relu4 x) in
  let? x := nn.conv2d (conv2 s) x in
  let? x := nn.max_pool2d (nn.relu4 x) in
  let? x := nn.conv2d (conv3 s) x in
  nn.max_pool2d (nn.relu4 x).

(** [out.size(2)] and [out.size(3)], read off the first plane of the first
    sample. *)
Definition size2 (t : Tensor4) : nat := nn.height (hd [] t).

Definition size3 (t : Tensor4) : nat := nn.plane_width (hd [] t).

(** [timestep.view(-1, 1, 1, 1).expand(-1, 1, h, w)]: per entry, one plane
    filled with it. *)
Definition timestep_planes (timestep : Vec) (h w : nat) : Tensor4 :=
  map (fun t => [replicate h (replicate w t)]) timestep.

(** [torch.cat((x, y), dim=1)] for [y] with planes of the size of those of
    [x]: the batch sizes must agree. *)
Definition cat1 (x y : Tensor4) : result Tensor4 :=
  if length x =? length y then Ok (zip_with app x y) else Err ShapeMismatch.

(** [StateNetwork.forward]. *)
Definition StateNetwork_forward (s : StateNetwork) (image : Tensor4) (timestep : Vec)
  : result Tensor4 :=
  let? out := StateNetwork_net s image in
  let timestep := timestep_planes timestep (size2 out) (size3 out) in
  cat1 out timestep.

(** [nn.Conv2d(cin, cout, k, padding=p)]. *)
Definition conv_shape (cin cout k p : nat) (c : nn.Conv2d) : Prop :=
  nn.in_channels c = cin /\ nn.kernel_size c = k /\ nn.padding c = p /\
  length (nn.conv_weight c) = cout /\ length (nn.conv_bias c) = cout.

(** The layers [StateNetwork(in_channels, out_channels)] asks for, with the
    default [kernel = 3] (lines 14, 17, 20). *)
Definition state_network_built_for (cin cout : nat) (s : StateNetwork) : Prop :=
  conv_shape cin cout 3 0 (conv1 s) /\
  conv_shape cout cout 3 1 (conv2 s) /\
  conv_shape cout cout 3 1 (conv3 s).

(** Side of a plane after the three rounds: [h - 2] after the unpadded
    convolution, then halved three times. *)
Definition feature_size (h : nat) : nat := (h - 2) / 2 / 2 / 2.

(** A state network and an agent around it to run the code on: one input
    channel, one output channel, filters that copy the centre of their
    window. *)
Module DemoNet.

Definition centre : Tensor4 :=
  [[[[F32.zero; F32.zero; F32.zero];
     [F32.zero; F32.one; F32.zero];
     [F32.zero; F32.zero; F32.zero]]]].

Definition conv (p : nat) : nn.Conv2d :=
  {| nn.in_channels := 1; nn.kernel_size := 3; nn.padding := p;
     nn.conv_weight := centre; nn.conv_bias := [F32.zero] |}.

Definition state_network : StateNetwork :=
  {| conv1 := conv 0; conv2 := conv 1; conv3 := conv 1 |}.

Definition agent (n_uniform n_cem iter elite : Z) (lo hi : F) : Agent :=
  {| action_size := 1; num_uniform := n_uniform; num_cem := n_cem;
     cem_iter := iter; cem_elite := elite; bounds := (lo, hi);
     state_net := StateNetwork_forward state_network;
     action_net := net_action Demo.nets;
     fc1 := net_fc1 Demo.nets; fc2 := net_fc2 Demo.nets; fc3 := net_fc3 Demo.nets |}.

(** An image of [b] samples with one channel of [h] x [w] ones. *)
Definition image (b h w : nat) : Tensor4 :=
  replicate b [replicate h (replicate w F32.one)].

End DemoNet.

(** One sample through [self.net]: the layers of lines 13-22 on a single
    image. *)
Definition net_sample (s : StateNetwork) (sample : Tensor3) : result Tensor3 :=
  let? x := nn.conv2d_sample (conv1 s) sample in
  let? x := rmapM nn.max_pool_plane (map torch.relu x) in
  let? x := nn.conv2d_sample (conv2 s) x in
  let? x := rmapM nn.max_pool_plane (map torch.relu x) in
  let? x := nn.conv2d_sample (conv3 s) x in
  rmapM nn.max_pool_plane (map torch.relu x).

(** ** Further vocabulary

    One row of [_forward_q]: the same layers on a single (embedding, action)
    pair. *)
Definition forward_q_row (a : Agent) (emb : Tensor3) (act : Vec) : result Vec :=
  let? out := linear_row (action_net a) act in
  let? chans := torch.expand_dim (map torch.relu1 out) (Z.of_nat (length emb)) in
  let x := concat (concat (zip_with (zip_with (zip_with F32.add)) emb
                                    (spread chans emb))) in
  let? x := linear_row (fc1 a) x in
  let? x := linear_row (fc2 a) (map torch.relu1 x) in
  linear_row (fc3 a) (map torch.relu1 x).

(** * Theorems *)

(** ** The order of binary32 *)

Module F32Order.

Import F32.

(** Case analysis on two numbers, down to the comparisons of their exponents
    and mantissas. *)
Ltac by_cases x y :=
  let m1 := fresh "m" in let e1 := fresh "e" in
  let m2 := fresh "m" in let e2 := fresh "e" in
  destruct x as [[]|[]| |[] m1 e1], y as [[]|[]| |[] m2 e2]; simpl;
  try (split; [discriminate | intros (? & ? & ?); try discriminate; lia]);
  try (split; [intros _; repeat split; lia | reflexivity]);
  change (PosDef.Pos.compare_cont Eq m1 m2) with (Pos.compare m1 m2);
  destruct (Z.compare_spec e1 e2); simpl;
  try (destruct (Pos.compare_spec m1 m2); simpl);
  (split; [try discriminate; intros _; repeat split; lia
          | intros (? & ? & ?); try reflexivity; lia]).

Lemma ltb_key x y :
  ltb x y = true <->
  is_nan x = false /\ is_nan y = false /\ lex_lt (key x) (key y).
Proof. unfold ltb, SFltb. by_cases x y. Qed.

Lemma leb_key x y :
  leb x y = true <->
  is_nan x = false /\ is_nan y = false /\ ~ lex_lt (key y) (key x).
Proof. unfold leb, SFleb. by_cases x y. Qed.

Lemma gtb_key x y : gtb x y = true <-> lex_lt (key y) (key x).
Proof.
  unfold gtb. rewrite orb_true_iff, andb_true_iff, negb_true_iff, ltb_key.
  destruct x as [[]|[]| |[] m1 e1], y as [[]|[]| |[] m2 e2]; simpl;
    intuition (try discriminate; try lia).
Qed.

Lemma gtb_key_false x y : gtb x y = false <-> ~ lex_lt (key y) (key x).
Proof. rewrite <- gtb_key. destruct (gtb x y); intuition congruence. Qed.

Lemma lex_lt_irrefl p : ~ lex_lt p p.
Proof. destruct p as [[? ?] ?]; simpl; lia. Qed.

Lemma lex_le_trans p q r : ~ lex_lt q p -> ~ lex_lt r q -> ~ lex_lt r p.
Proof. destruct p as [[? ?] ?], q as [[? ?] ?], r as [[? ?] ?]; simpl; lia. Qed.

Lemma lex_lt_asym p q : lex_lt p q -> ~ lex_lt q p.
Proof. destruct p as [[? ?] ?], q as [[? ?] ?]; simpl; lia. Qed.

(** [rank_le] is a total preorder; on numbers it is [<=]. *)
Lemma rank_le_refl x : rank_le x x.
Proof. apply gtb_key_false, lex_lt_irrefl. Qed.

Lemma rank_le_trans x y z : rank_le x y -> rank_le y z -> rank_le x z.
Proof.
  unfold rank_le. rewrite !gtb_key_false. intros H1 H2.
  exact (lex_le_trans (key x) (key y) (key z) H1 H2).
Qed.

Lemma gtb_rank_le x y : gtb x y = true -> rank_le y x.
Proof. unfold rank_le. rewrite gtb_key, gtb_key_false. apply lex_lt_asym. Qed.

Lemma rank_le_total x y : rank_le x y \/ rank_le y x.
Proof.
  destruct (gtb x y) eqn:H; [right; apply gtb_rank_le, H|left; exact H].
Qed.

Lemma rank_le_leb x y :
  is_nan x = false -> is_nan y = false -> (rank_le x y <-> leb x y = true).
Proof.
  intros Hx Hy. unfold rank_le. rewrite gtb_key_false, leb_key. tauto.
Qed.

Lemma ltb_leb x y : ltb x y = true -> leb x y = true.
Proof.
  rewrite ltb_key, leb_key. intros (Hx & Hy & Hlt).
  repeat split; try assumption. apply lex_lt_asym, Hlt.
Qed.

End F32Order.

(** ** Results and lists *)

Lemma rmapM_Forall2 {A B} (f : A -> result B) (l : list A) (ys : list B) :
  rmapM f l = Ok ys <-> Forall2 (fun x y => f x = Ok y) l ys.
Proof.
  revert ys. induction l as [|x l IH]; intros ys; simpl.
  - split.
    + intros [= <-]. constructor.
    + intros H. inversion H. reflexivity.
  - split.
    + destruct (f x) as [y|e] eqn:Hx; simpl; [|discriminate].
      destruct (rmapM f l) as [ys'|e] eqn:Hl; simpl; [|discriminate].
      intros [= <-]. constructor; [assumption|]. apply IH. reflexivity.
    + intros H. inversion H as [|? y ? ys' Hy Hys]; subst.
      rewrite Hy. simpl. apply IH in Hys. rewrite Hys. reflexivity.
Qed.

Lemma rmapM_map {A B} (f : A -> result B) (g : A -> B) (l : list A) :
  Forall (fun x => f x = Ok (g x)) l -> rmapM f l = Ok (map g l).
Proof.
  intros H. apply rmapM_Forall2. induction H; simpl; constructor; auto.
Qed.

Lemma rmapM_length {A B} (f : A -> result B) l ys :
  rmapM f l = Ok ys -> length ys = length l.
Proof.
  intros H. apply rmapM_Forall2 in H. symmetry. eapply Forall2_length, H.
Qed.

(** ** Shapes through the Q-value head *)

Lemma shape2_map (f : Vec -> Vec) n w w' m :
  (forall row, length row = w -> length (f row) = w') ->
  shape2 n w m -> shape2 n w' (map f m).
Proof.
  intros Hf [Hn Hw]. split.
  - rewrite length_map. exact Hn.
  - apply Forall_map. eapply Forall_impl; [exact Hw|]. exact Hf.
Qed.

Lemma shape2_relu n w m : shape2 n w m -> shape2 n w (torch.relu m).
Proof.
  apply shape2_map. intros row <-. apply length_map.
Qed.

Lemma linear_ok l i o n m :
  linear_shape i o l -> shape2 n i m ->
  linear l m = Ok (map (linear_fun l) m) /\ shape2 n o (map (linear_fun l) m).
Proof.
  intros (Hi & Hw & Hb) Hm. split.
  - apply rmapM_map. destruct Hm as [_ Hm].
    eapply Forall_impl; [exact Hm|]. intros row Hrow. simpl in Hrow.
    unfold linear_row. rewrite Hrow, Hi, Nat.eqb_refl. reflexivity.
  - eapply shape2_map; [|exact Hm]. intros row _. unfold linear_fun.
    rewrite length_zip_with. lia.
Qed.

Lemma expand_dim_same {A} (src : list A) n :
  length src = n -> torch.expand_dim src (Z.of_nat n) = Ok src.
Proof.
  intros <-. unfold torch.expand_dim.
  destruct (Z.eqb_spec (Z.of_nat (length src)) (-1)); [lia|].
  destruct (Z.ltb_spec (Z.of_nat (length src)) 0); [lia|].
  rewrite Z.eqb_refl. reflexivity.
Qed.

Lemma expand_dim_single {A} (x : A) n :
  (0 <= n)%Z -> torch.expand_dim [x] n = Ok (replicate (Z.to_nat n) x).
Proof.
  intros Hn. unfold torch.expand_dim.
  destruct (Z.eqb_spec n (-1)); [lia|].
  destruct (Z.ltb_spec n 0); [lia|].
  simpl length. destruct (Z.eqb_spec (Z.of_nat 1) n) as [<-|]; reflexivity.
Qed.

Lemma shape3_spread c h w row sample :
  length row = c -> shape3 c h w sample -> shape3 c h w (spread row sample).
Proof.
  intros Hrow [Hc Hs]. split.
  - unfold spread. rewrite length_zip_with. lia.
  - unfold spread. revert row c Hrow Hc. induction Hs as [|p s Hp Hs IH]; intros row c Hrow Hc.
    + destruct row; constructor.
    + destruct row as [|v row]; simpl; constructor.
      * destruct Hp as [Hh Hw]. split.
        -- rewrite length_map. exact Hh.
        -- apply Forall_map. eapply Forall_impl; [exact Hw|].
           intros r Hr. simpl. rewrite length_map. exact Hr.
      * simpl in *. eapply (IH row (length row)); [reflexivity|lia].
Qed.

Lemma expand_as_ok n c h w out hidden :
  shape2 n c out -> shape4 n c h w hidden ->
  exists t, expand_as out hidden = Ok t /\ shape4 n c h w t.
Proof.
  intros [Hn Hout] [Hb Hh].
  exists (zip_with spread out hidden). split.
  - unfold expand_as. rewrite Hb, expand_dim_same by exact Hn. simpl.
    apply rmapM_Forall2.
    clear Hn Hb. revert hidden Hh.
    induction Hout as [|row out Hrow Hout IH]; intros hidden Hh.
    + simpl. constructor.
    + destruct Hh as [|sample hidden Hs Hh]; simpl; constructor.
      * simpl. destruct Hs as [Hc _].
        rewrite Hc, expand_dim_same by exact Hrow. reflexivity.
      * apply IH. exact Hh.
  - split.
    + rewrite length_zip_with. lia.
    + clear Hn Hb. revert hidden Hh.
      induction Hout as [|row out Hrow Hout IH]; intros hidden Hh.
      * constructor.
      * destruct Hh as [|sample hidden Hs Hh]; simpl; constructor.
        -- apply shape3_spread; assumption.
        -- apply IH. exact Hh.
Qed.

Lemma length_concat_shape2 h w (p : Mat) : shape2 h w p -> length (concat p) = h * w.
Proof.
  intros [Hh Hw]. subst h. induction Hw as [|r p Hr Hw IH]; simpl.
  - reflexivity.
  - rewrite length_app, IH, Hr. reflexivity.
Qed.

Lemma length_concat_shape3 c h w (s : Tensor3) :
  shape3 c h w s -> length (concat (concat s)) = c * h * w.
Proof.
  intros [Hc Hs]. subst c. induction Hs as [|p s Hp Hs IH]; simpl.
  - reflexivity.
  - rewrite concat_app, length_app, IH.
    rewrite (length_concat_shape2 h w p Hp). lia.
Qed.

Lemma shape2_zip_add h w (p p' : Mat) :
  shape2 h w p -> shape2 h w p' -> shape2 h w (zip_with (zip_with F32.add) p p').
Proof.
  intros [Hh Hw] [Hh' Hw']. split.
  - rewrite length_zip_with. lia.
  - clear Hh Hh'. revert p' Hw'. induction Hw as [|r p Hr Hw IH]; intros p' Hw'.
    + constructor.
    + destruct Hw' as [|r' p' Hr' Hw']; simpl; constructor.
      * rewrite length_zip_with. lia.
      * apply IH. exact Hw'.
Qed.

Lemma shape3_zip_add c h w (s s' : Tensor3) :
  shape3 c h w s -> shape3 c h w s' ->
  shape3 c h w (zip_with (zip_with (zip_with F32.add)) s s').
Proof.
  intros [Hc Hs] [Hc' Hs']. split.
  - rewrite length_zip_with. lia.
  - clear Hc Hc'. revert s' Hs'. induction Hs as [|p s Hp Hs IH]; intros s' Hs'.
    + constructor.
    + destruct Hs' as [|p' s' Hp' Hs']; simpl; constructor.
      * apply shape2_zip_add; assumption.
      * apply IH. exact Hs'.
Qed.

Lemma shape4_tensor_add n c h w (t t' : Tensor4) :
  shape4 n c h w t -> shape4 n c h w t' -> shape4 n c h w (tensor_add t t').
Proof.
  intros [Hn Ht] [Hn' Ht']. split.
  - unfold tensor_add. rewrite length_zip_with. lia.
  - unfold tensor_add. clear Hn Hn'. revert t' Ht'.
    induction Ht as [|s t Hs Ht IH]; intros t' Ht'.
    + constructor.
    + destruct Ht' as [|s' t' Hs' Ht']; simpl; constructor.
      * apply shape3_zip_add; assumption.
      * apply IH. exact Ht'.
Qed.

Lemma flatten_ok n c h w (t : Tensor4) :
  0 < n -> shape4 n c h w t ->
  exists m, flatten t = Ok m /\ shape2 n (c * h * w) m.
Proof.
  intros Hpos [Hn Ht]. exists (map (fun sample => concat (concat sample)) t). split.
  - destruct t; [simpl in Hn; lia|reflexivity].
  - split.
    + rewrite length_map. exact Hn.
    + apply Forall_map. eapply Forall_impl; [exact Ht|].
      intros s Hs. simpl. eapply length_concat_shape3, Hs.
Qed.

(** With the layers [__init__] builds, scoring [n] actions against [n]
    embeddings succeeds and yields one Q-value per row. *)
Lemma forward_q_ok oc n a hidden action :
  built_for oc a -> 0 < n ->
  shape4 n (oc + 1) 7 7 hidden ->
  shape2 n (width a) action ->
  exists q, _forward_q a hidden action = Ok q /\ shape2 n 1 q.
Proof.
  intros (Ha & H1 & H2 & H3) Hpos Hh Hact.
  unfold _forward_q, ActionNetwork_forward.
  destruct (linear_ok _ _ _ _ _ Ha Hact) as [-> Hs0]. simpl.
  apply shape2_relu in Hs0.
  destruct (expand_as_ok _ _ _ _ _ _ Hs0 Hh) as (t & -> & Ht). simpl.
  destruct (flatten_ok _ _ _ _ _ Hpos (shape4_tensor_add _ _ _ _ _ _ Hh Ht))
    as (flat & -> & Hf). simpl.
  replace ((oc + 1) * 7 * 7) with (7 * 7 * (oc + 1)) in Hf by lia.
  destruct (linear_ok _ _ _ _ _ H1 Hf) as [-> Hs1]. simpl.
  apply shape2_relu in Hs1.
  destruct (linear_ok _ _ _ _ _ H2 Hs1) as [-> Hs2]. simpl.
  apply shape2_relu in Hs2.
  destruct (linear_ok _ _ _ _ _ H3 Hs2) as [-> Hs3].
  eexists. split; [reflexivity|exact Hs3].
Qed.

Lemma concat_shape2_one n (q : Mat) : shape2 n 1 q -> length (concat q) = n.
Proof. intros H. rewrite (length_concat_shape2 n 1 q H). lia. Qed.

Lemma shape4_replicate n c h w emb :
  shape3 c h w emb -> shape4 n c h w (replicate n emb).
Proof.
  intros H. split; [apply length_replicate|apply Forall_replicate, H].
Qed.

(** One embedding replicated [n > 0] times against [n] actions: [n] scores. *)
Lemma forward_q_replicated oc n a emb action :
  built_for oc a -> 0 < n -> shape3 (oc + 1) 7 7 emb ->
  shape2 n (width a) action ->
  exists q, _forward_q a (replicate n emb) action = Ok q /\ length (concat q) = n.
Proof.
  intros Hb Hn Hemb Hact.
  destruct (forward_q_ok oc n a _ action Hb Hn (shape4_replicate _ _ _ _ _ Hemb) Hact)
    as (q & Hq & Hqs).
  exists q. split; [exact Hq|apply concat_shape2_one, Hqs].
Qed.

(** ** Maximum and top-k selection *)

Lemma argmax_from_spec (l pre : Vec) bi b :
  pre !! bi = Some b ->
  (forall j v, pre !! j = Some v -> F32.rank_le v b) ->
  is_argmax (pre ++ l) (torch.argmax_from bi b (length pre) l).
Proof.
  revert pre bi b. induction l as [|v l IH]; intros pre bi b Hb Hmax; simpl.
  - rewrite app_nil_r. exists b. split; assumption.
  - replace (pre ++ v :: l) with ((pre ++ [v]) ++ l) by (rewrite <- app_assoc; reflexivity).
    replace (S (length pre)) with (length (pre ++ [v])) by (rewrite length_app; simpl; lia).
    destruct (F32.gtb v b) eqn:Hgt.
    + apply IH.
      * rewrite lookup_app_r by lia. rewrite Nat.sub_diag. reflexivity.
      * intros j u Hj. destruct (lookup_app_Some pre [v] j u) as [Hsplit _].
        destruct (Hsplit Hj) as [Hpre | [_ Hlast]].
        -- eapply F32Order.rank_le_trans; [apply (Hmax j u Hpre)|].
           apply F32Order.gtb_rank_le, Hgt.
        -- destruct (j - length pre) as [|?]; simpl in Hlast; [|discriminate].
           injection Hlast as <-. apply F32Order.rank_le_refl.
    + apply IH.
      * apply lookup_app_l_Some. exact Hb.
      * intros j u Hj. destruct (lookup_app_Some pre [v] j u) as [Hsplit _].
        destruct (Hsplit Hj) as [Hpre | [_ Hlast]].
        -- apply (Hmax j u Hpre).
        -- destruct (j - length pre) as [|?]; simpl in Hlast; [|discriminate].
           injection Hlast as <-. exact Hgt.
Qed.

Lemma argmax_spec (l : Vec) k : torch.argmax l = Ok k -> is_argmax l k.
Proof.
  destruct l as [|v l]; simpl; [discriminate|]. intros [= <-].
  apply (argmax_from_spec l [v] 0 v).
  - reflexivity.
  - intros [|j] u Hj; simpl in Hj; [|discriminate].
    injection Hj as <-. apply F32Order.rank_le_refl.
Qed.

Lemma is_argmax_lt (l : Vec) k : is_argmax l k -> k < length l.
Proof. intros (sk & Hk & _). eapply lookup_lt_Some, Hk. Qed.

Lemma best_entry_spec (l : list (nat * F)) e :
  In (torch.best_entry e l) (e :: l) /\
  forall e', In e' (e :: l) -> F32.rank_le (snd e') (snd (torch.best_entry e l)).
Proof.
  revert e. induction l as [|x l IH]; intros e; simpl.
  - split; [left; reflexivity|]. intros e' [<-|[]]. apply F32Order.rank_le_refl.
  - destruct (F32.gtb (snd x) (snd e)) eqn:Hgt.
    + destruct (IH x) as [Hin Hmax]. split.
      * right. exact Hin.
      * intros e' [<-|Hin'].
        -- eapply F32Order.rank_le_trans; [|apply Hmax; left; reflexivity].
           apply F32Order.gtb_rank_le, Hgt.
        -- apply Hmax, Hin'.
    + destruct (IH e) as [Hin Hmax]. split.
      * destruct Hin as [<-|Hin]; [left; reflexivity|right; right; exact Hin].
      * intros e' [<-|[<-|Hin']].
        -- apply Hmax. left. reflexivity.
        -- eapply F32Order.rank_le_trans; [exact Hgt|]. apply Hmax. left. reflexivity.
        -- apply Hmax. right. exact Hin'.
Qed.

Lemma remove_entry_In (l : list (nat * F)) i e :
  NoDup (map fst l) ->
  (In e (torch.remove_entry i l) <-> In e l /\ fst e <> i).
Proof.
  induction l as [|x l IH]; simpl; intros Hnd.
  - tauto.
  - inversion Hnd as [|? ? Hx Hnd']; subst.
    destruct (Nat.eqb_spec (fst x) i) as [Heq|Hne].
    + split.
      * intros Hin. split; [right; exact Hin|].
        intros Hi. apply Hx. rewrite Heq, <- Hi. apply list_elem_of_In, in_map, Hin.
      * intros [[->|Hin] Hi]; [contradiction|exact Hin].
    + simpl. rewrite (IH Hnd'). split.
      * intros [<-|[Hin Hi]]; [split; [left; reflexivity|exact Hne]|].
        split; [right; exact Hin|exact Hi].
      * intros [[<-|Hin] Hi]; [left; reflexivity|right; split; assumption].
Qed.

Lemma remove_entry_NoDup (l : list (nat * F)) i :
  NoDup (map fst l) -> NoDup (map fst (torch.remove_entry i l)).
Proof.
  induction l as [|x l IH]; simpl; intros Hnd; [constructor|].
  inversion Hnd as [|? ? Hx Hnd']; subst.
  destruct (Nat.eqb_spec (fst x) i); [exact Hnd'|].
  simpl. constructor; [|apply IH, Hnd'].
  intros Hin. apply list_elem_of_In, in_map_iff in Hin as (e & He & Hin).
  apply (remove_entry_In l i e Hnd') in Hin as [Hin _].
  apply Hx. rewrite <- He. apply list_elem_of_In, in_map, Hin.
Qed.

Lemma remove_entry_length (l : list (nat * F)) i :
  In i (map fst l) -> length l = S (length (torch.remove_entry i l)).
Proof.
  induction l as [|x l IH]; simpl; intros Hin; [contradiction|].
  destruct (Nat.eqb_spec (fst x) i) as [|Hne]; [reflexivity|].
  simpl. f_equal. apply IH. destruct Hin; [contradiction|assumption].
Qed.

Lemma entries_functional (l : list (nat * F)) i v v' :
  NoDup (map fst l) -> In (i, v) l -> In (i, v') l -> v = v'.
Proof.
  induction l as [|x l IH]; simpl; intros Hnd H1 H2; [contradiction|].
  inversion Hnd as [|? ? Hx Hnd']; subst.
  destruct H1 as [->|H1], H2 as [H2|H2].
  - congruence.
  - exfalso. apply Hx. apply list_elem_of_In. simpl.
    change i with (fst (i, v')). apply in_map, H2.
  - exfalso. apply Hx. apply list_elem_of_In. subst x. simpl.
    change i with (fst (i, v)). apply in_map, H1.
  - apply IH; assumption.
Qed.

(** What [select k l] returns: [k] distinct indices of [l], none of them
    outranked by an entry left out. *)
Lemma select_spec k (l : list (nat * F)) :
  NoDup (map fst l) -> k <= length l ->
  length (torch.select k l) = k /\
  NoDup (torch.select k l) /\
  (forall i, In i (torch.select k l) -> In i (map fst l)) /\
  (forall i j si sj, In i (torch.select k l) -> ~ In j (torch.select k l) ->
                     In (i, si) l -> In (j, sj) l -> F32.rank_le sj si).
Proof.
  revert l. induction k as [|k IH]; intros l Hnd Hk.
  - destruct l; simpl; repeat split; try constructor; intros; contradiction.
  - destruct l as [|e l']; [simpl in Hk; lia|].
    cbn [torch.select].
    set (b := torch.best_entry e l').
    destruct (best_entry_spec l' e) as [Hb Hmax]. fold b in Hb, Hmax.
    set (rest := torch.remove_entry (fst b) (e :: l')).
    assert (Hbi : In (fst b) (map fst (e :: l'))) by (apply in_map, Hb).
    pose proof (remove_entry_length (e :: l') (fst b) Hbi) as Hlen. fold rest in Hlen.
    pose proof (remove_entry_NoDup (e :: l') (fst b) Hnd) as Hnd'. fold rest in Hnd'.
    assert (Hk' : k <= length rest) by (simpl in Hk, Hlen; lia).
    destruct (IH rest Hnd' Hk') as (Hl & Hn & Hin & Hrank).
    assert (Hrest : forall x, In x rest <-> In x (e :: l') /\ fst x <> fst b)
      by (intros x; apply remove_entry_In, Hnd).
    repeat split.
    + simpl. rewrite Hl. reflexivity.
    + constructor; [|exact Hn]. intros Hc. apply list_elem_of_In, Hin in Hc.
      apply in_map_iff in Hc as (x & Hx & Hxin). apply Hrest in Hxin as [_ Hne].
      contradiction.
    + intros i [<-|Hi]; [exact Hbi|].
      apply Hin in Hi. apply in_map_iff in Hi as (x & <- & Hxin).
      apply in_map. apply Hrest in Hxin. tauto.
    + intros i j si sj Hi Hj Hisi Hjsj.
      assert (Hjb : j <> fst b) by (intros ->; apply Hj; left; reflexivity).
      assert (Hjr : In (j, sj) rest) by (apply Hrest; split; [exact Hjsj|exact Hjb]).
      destruct Hi as [<-|Hi].
      * assert (snd b = si) as <-.
        { apply (entries_functional (e :: l') (fst b)); [exact Hnd| |exact Hisi].
          destruct b; exact Hb. }
        apply (Hmax (j, sj) Hjsj).
      * destruct (Nat.eq_dec i (fst b)) as [->|Hne].
        -- exfalso. apply Hin in Hi. apply in_map_iff in Hi as (x & Hx & Hxin).
           apply Hrest in Hxin as [_ Hxne]. contradiction.
        -- apply (Hrank i j si sj Hi); [|apply Hrest; split; [exact Hisi|exact Hne]|exact Hjr].
           intros Hc. apply Hj. right. exact Hc.
Qed.

Lemma combine_seq_In (q : Vec) s i v :
  In (i, v) (combine (seq s (length q)) q) <-> s <= i /\ q !! (i - s) = Some v.
Proof.
  revert s. induction q as [|x q IH]; intros s; simpl.
  - split; [contradiction|]. intros [_ H]. discriminate.
  - rewrite IH. split.
    + intros [[= <- <-]|[Hs Hq]].
      * split; [lia|]. rewrite Nat.sub_diag. reflexivity.
      * split; [lia|]. replace (i - s) with (S (i - S s)) by lia. exact Hq.
    + intros [Hs Hq]. destruct (i - s) as [|n] eqn:Hn.
      * left. simpl in Hq. injection Hq as <-. f_equal. lia.
      * right. split; [lia|]. simpl in Hq. replace (i - S s) with n by lia. exact Hq.
Qed.

Lemma enumerate_In (q : Vec) i v : In (i, v) (torch.enumerate q) <-> q !! i = Some v.
Proof.
  unfold torch.enumerate. rewrite combine_seq_In, Nat.sub_0_r.
  split; [tauto|]. intros H. split; [lia|exact H].
Qed.

Lemma enumerate_fst (q : Vec) : map fst (torch.enumerate q) = seq 0 (length q).
Proof.
  unfold torch.enumerate. generalize 0. induction q as [|x q IH]; intros s; simpl.
  - reflexivity.
  - f_equal. apply IH.
Qed.

Lemma enumerate_length (q : Vec) : length (torch.enumerate q) = length q.
Proof. rewrite <- (length_map fst), enumerate_fst. apply length_seq. Qed.

(** [torch.topk] hands back the highest-ranking [k] positions. *)
Lemma topk_indices_spec (q : Vec) (k : Z) :
  (0 <= k <= Z.of_nat (length q))%Z ->
  exists idx,
    torch.topk_indices q k = Ok idx /\
    length idx = Z.to_nat k /\
    NoDup idx /\
    (forall i, In i idx -> i < length q) /\
    (forall i j si sj, In i idx -> ~ In j idx ->
                       q !! i = Some si -> q !! j = Some sj -> F32.rank_le sj si).
Proof.
  intros Hk. unfold torch.topk_indices.
  destruct (Z.ltb_spec k 0); [lia|].
  destruct (Z.ltb_spec (Z.of_nat (length q)) k); [lia|]. simpl.
  eexists. split; [reflexivity|].
  destruct (select_spec (Z.to_nat k) (torch.enumerate q)) as (Hl & Hn & Hin & Hrank).
  - rewrite enumerate_fst. apply NoDup_seq.
  - rewrite enumerate_length. lia.
  - repeat split; [exact Hl|exact Hn| |].
    + intros i Hi. apply Hin in Hi. rewrite enumerate_fst in Hi.
      apply in_seq in Hi. lia.
    + intros i j si sj Hi Hj Hsi Hsj.
      apply (Hrank i j si sj Hi Hj); apply enumerate_In; assumption.
Qed.

Lemma topk_indices_out_of_range (q : Vec) (k : Z) :
  (Z.of_nat (length q) < k)%Z -> torch.topk_indices q k = Err TopkOutOfRange.
Proof.
  intros Hk. unfold torch.topk_indices.
  destruct (Z.ltb_spec (Z.of_nat (length q)) k); [|lia].
  rewrite orb_true_r. reflexivity.
Qed.

Lemma index_rows_ok (m : Mat) (idx : list nat) :
  (forall i, In i idx -> i < length m) ->
  torch.index_rows m idx = Ok (map (fun i => nth i m []) idx).
Proof.
  intros H. apply rmapM_map. apply Forall_forall. intros i Hi.
  apply list_elem_of_In, H in Hi.
  destruct (m !! i) as [row|] eqn:Hrow.
  - f_equal. symmetry. apply nth_lookup_Some with (d := []) in Hrow. exact Hrow.
  - apply lookup_ge_None in Hrow. lia.
Qed.

(** ** Sampling *)

Lemma advance_advance n m g : advance n (advance m g) = advance (m + n) g.
Proof. unfold advance. simpl. f_equal. lia. Qed.

Lemma advance_0 g : advance 0 g = g.
Proof. destruct g. unfold advance. simpl. f_equal. lia. Qed.

Lemma imap_seq_nth {A B} (f : nat -> A -> B) (l : list A) (d : A) :
  imap f l = map (fun i => f i (nth i l d)) (seq 0 (length l)).
Proof.
  revert f. induction l as [|x l IH]; intros f; simpl; [reflexivity|].
  f_equal. rewrite IH. rewrite <- seq_shift, map_map. reflexivity.
Qed.

Lemma normal_row_spec g start (mean std : Vec) w :
  length mean = w -> length std = w ->
  torch.normal_row g start mean std
  = map (fun d => F32.add (F32.mul (gauss g (start + d)) (nth d std F32.zero))
                          (nth d mean F32.zero)) (seq 0 w).
Proof.
  intros Hm Hs. unfold torch.normal_row.
  rewrite (imap_seq_nth _ _ (F32.zero, F32.zero)).
  rewrite length_combine, Hm, Hs, Nat.min_id.
  apply map_ext_in. intros d Hd. apply in_seq in Hd.
  rewrite combine_nth by lia. reflexivity.
Qed.

Lemma normal_replicate g start n (mean std : Vec) w :
  length mean = w -> length std = w ->
  torch.normal_rows g start (combine (replicate n mean) (replicate n std))
  = map (fun j => torch.normal_row g (start + j * w) mean std) (seq 0 n)
  /\ torch.numel2 (combine (replicate n mean) (replicate n std)) = n * w.
Proof.
  intros Hm Hs.
  assert (Hc : length (combine mean std) = w)
    by (rewrite length_combine, Hm, Hs; apply Nat.min_id).
  revert start. induction n as [|n IH]; intros start.
  - split; reflexivity.
  - cbn [replicate combine torch.normal_rows torch.numel2 fold_right fst snd].
    rewrite Hc. destruct (IH (start + w)) as [-> Hn]. split.
    + cbn [seq map]. rewrite Nat.add_0_r. f_equal. rewrite <- seq_shift, map_map.
      apply map_ext. intros j. f_equal. lia.
    + unfold torch.numel2 in Hn. rewrite Hn. reflexivity.
Qed.

Lemma expand2_row (row : Vec) (r c : Z) :
  (0 <= r)%Z -> Z.of_nat (length row) = c ->
  torch.expand2 [row] r c = Ok (replicate (Z.to_nat r) row).
Proof.
  intros Hr Hc. unfold torch.expand2. simpl.
  rewrite <- Hc, expand_dim_same by reflexivity. simpl.
  apply expand_dim_single, Hr.
Qed.

Lemma cem_sample_spec a g (mean std : Vec) :
  (0 <= num_cem a)%Z -> (0 <= action_size a)%Z ->
  length mean = width a -> length std = width a ->
  cem_sample a [mean] [std] g
  = (Ok (cem_draws a g mean std), advance (Z.to_nat (num_cem a) * width a) g).
Proof.
  intros Hn Ha Hm Hs. unfold cem_sample, bind, lift. simpl.
  assert (Hw : Z.of_nat (width a) = action_size a) by (unfold width; lia).
  rewrite !expand2_row by (rewrite ?Hm, ?Hs; assumption).
  unfold torch.normal, ret.
  destruct (normal_replicate g (cursor g) (Z.to_nat (num_cem a)) mean std (width a) Hm Hs)
    as [-> ->].
  f_equal. f_equal. unfold torch.clamp, cem_draws. rewrite map_map.
  apply map_ext. intros j.
  rewrite (normal_row_spec g _ mean std (width a) Hm Hs), map_map.
  reflexivity.
Qed.

Lemma cem_draws_shape a g mean std :
  shape2 (Z.to_nat (num_cem a)) (width a) (cem_draws a g mean std).
Proof.
  unfold cem_draws. split.
  - rewrite length_map, length_seq. reflexivity.
  - apply Forall_map, Forall_forall. intros j _. simpl.
    rewrite length_map, length_seq. reflexivity.
Qed.

(** ** The cross-entropy optimizer on one embedding *)

Lemma replicate_map_seq {A} (x : A) n : replicate n x = map (fun _ => x) (seq 0 n).
Proof.
  generalize 0. induction n as [|n IH]; intros s; simpl; [reflexivity|].
  f_equal. apply IH.
Qed.

Lemma zeros2_row (c : Z) :
  (0 <= c)%Z -> torch.zeros2 1 c = Ok [replicate (Z.to_nat c) F32.zero].
Proof.
  intros Hc. unfold torch.zeros2.
  destruct (Z.ltb_spec c 0); [lia|]. reflexivity.
Qed.

Lemma column_index_rows (m : Mat) (idx : list nat) d :
  torch.column d (map (fun i => nth i m []) idx) = Spec.elite_column m idx d.
Proof. unfold torch.column, Spec.elite_column. apply map_map. Qed.

Lemma mean0_elite a (cands : Mat) idx :
  torch.mean0 (width a) (map (fun i => nth i cands []) idx)
  = [Spec.sample_mean a cands idx].
Proof.
  unfold torch.mean0, Spec.sample_mean. f_equal.
  apply map_ext. intros d. rewrite column_index_rows. reflexivity.
Qed.

Lemma std0_elite a (cands : Mat) idx :
  torch.std0 (width a) (map (fun i => nth i cands []) idx)
  = [Spec.sample_std a cands idx].
Proof.
  unfold torch.std0, Spec.sample_std. f_equal.
  apply map_ext. intros d. rewrite column_index_rows. reflexivity.
Qed.

Lemma cem_draws_candidates a g z t mean std :
  (forall j d, z t j d = gauss g (cursor g + j * width a + d)) ->
  cem_draws a g mean std = Spec.candidates a z mean std t.
Proof.
  intros Hz. unfold cem_draws, Spec.candidates, Spec.candidate, Spec.gaussian.
  apply map_ext. intros j. apply map_ext. intros d. rewrite Hz. reflexivity.
Qed.

(** With no iteration to run, the initial mean comes back. *)
Lemma cem_run_zero a hidden g :
  (cem_iter a <= 0)%Z -> length hidden = 1 ->
  (0 <= num_cem a)%Z -> (0 <= action_size a)%Z ->
  _cem_optimizer a hidden g
  = (Ok [replicate (Z.to_nat (action_size a)) F32.zero], g).
Proof.
  intros Hit Hlen Hn Ha.
  destruct hidden as [|emb [|? ?]]; try discriminate.
  unfold _cem_optimizer, bind, lift.
  rewrite expand_dim_single by exact Hn. rewrite zeros2_row by exact Ha.
  replace (Z.to_nat (cem_iter a)) with 0 by lia. reflexivity.
Qed.

Section OneEmbedding.

Variable oc : nat.
Variable a : Agent.
Variable emb : Tensor3.

Hypothesis Hbuilt : built_for oc a.
Hypothesis Hemb : shape3 (oc + 1) 7 7 emb.
Hypothesis Hcem : (0 < num_cem a)%Z.
Hypothesis Hsize : (0 <= action_size a)%Z.

Let n := Z.to_nat (num_cem a).
Let hidden := replicate n emb.

(** Lines 110-113 when [cem_elite] is within range: the elite rows. *)
Lemma cem_elite_rows_spec (action : Mat) :
  (0 <= cem_elite a <= num_cem a)%Z ->
  shape2 n (width a) action ->
  exists sc idx,
    Spec.scores a emb action = Ok sc /\
    length sc = n /\
    Spec.is_elite a sc idx /\
    cem_elite_rows a hidden action = Ok (map (fun i => nth i action []) idx).
Proof.
  intros Hk Hact.
  destruct (forward_q_replicated oc n a emb action Hbuilt ltac:(lia) Hemb Hact)
    as (q & Hq & Hlen).
  destruct (topk_indices_spec (concat q) (cem_elite a))
    as (idx & Htop & Hl & Hn & Hlt & Hr); [lia|].
  exists (concat q), idx. repeat split; try assumption.
  - unfold Spec.scores. fold n. rewrite Hq. reflexivity.
  - unfold cem_elite_rows, hidden. rewrite Hq. simpl. rewrite Htop. simpl.
    apply index_rows_ok. intros i Hi. apply Hlt in Hi.
    destruct Hact as [-> _]. lia.
Qed.

(** Lines 110-113 when [cem_elite] exceeds [num_cem]: [topk] raises, after
    the candidates have been scored. *)
Lemma cem_elite_rows_too_many (action : Mat) :
  (num_cem a < cem_elite a)%Z ->
  shape2 n (width a) action ->
  cem_elite_rows a hidden action = Err TopkOutOfRange.
Proof.
  intros Hk Hact.
  destruct (forward_q_replicated oc n a emb action Hbuilt ltac:(lia) Hemb Hact)
    as (q & Hq & Hlen).
  unfold cem_elite_rows, hidden. rewrite Hq. simpl.
  rewrite topk_indices_out_of_range; [reflexivity|lia].
Qed.

(** One pass of the loop body. *)
Lemma cem_step_spec g mean std :
  (0 <= cem_elite a <= num_cem a)%Z ->
  length mean = width a -> length std = width a ->
  exists sc idx,
    Spec.scores a emb (cem_draws a g mean std) = Ok sc /\
    length sc = n /\
    Spec.is_elite a sc idx /\
    cem_step a hidden [mean] [std] g
    = (Ok (torch.mean0 (width a) (map (fun i => nth i (cem_draws a g mean std) []) idx),
           torch.std0 (width a) (map (fun i => nth i (cem_draws a g mean std) []) idx)),
       advance (n * width a) g).
Proof.
  intros Hk Hm Hs.
  destruct (cem_elite_rows_spec (cem_draws a g mean std) Hk (cem_draws_shape a g mean std))
    as (sc & idx & Hsc & Hlen & He & Hrows).
  exists sc, idx. repeat split; try assumption; try apply He.
  unfold cem_step, bind. rewrite cem_sample_spec by (assumption || lia).
  unfold lift. rewrite Hrows. reflexivity.
Qed.

(** [k] passes of the loop are [k] iterations of the specification's
    method, on the draws the generator hands out. *)
Lemma cem_loop_spec z :
  (0 <= cem_elite a <= num_cem a)%Z ->
  forall k t g mean std,
    length mean = width a -> length std = width a ->
    (forall i j d, z (t + i) j d = gauss g (cursor g + (i * n + j) * width a + d)) ->
    exists mean' std',
      cem_loop a hidden k [mean] [std] g
      = (Ok ([mean'], [std']), advance (k * (n * width a)) g) /\
      Spec.iterate a emb z t k mean std mean' std'.
Proof.
  intros Hk. induction k as [|k IH]; intros t g mean std Hm Hs Hz.
  - exists mean, std. split; [|constructor].
    simpl. unfold ret. rewrite advance_0. reflexivity.
  - assert (Hz0 : forall j d, z t j d = gauss g (cursor g + j * width a + d)).
    { intros j d. specialize (Hz 0 j d). rewrite Nat.add_0_r in Hz. exact Hz. }
    pose proof (cem_draws_candidates a g z t mean std Hz0) as Hc.
    destruct (cem_step_spec g mean std Hk Hm Hs)
      as (sc & idx & Hsc & _ & He & Hstep).
    set (g' := advance (n * width a) g) in *.
    destruct (IH (S t) g' (Spec.sample_mean a (cem_draws a g mean std) idx)
                          (Spec.sample_std a (cem_draws a g mean std) idx))
      as (mean' & std' & Hloop & Hit).
    + unfold Spec.sample_mean. rewrite length_map, length_seq. reflexivity.
    + unfold Spec.sample_std. rewrite length_map, length_seq. reflexivity.
    + intros i j d. replace (S t + i) with (t + S i) by lia. rewrite Hz.
      unfold g', advance. simpl. f_equal. lia.
    + exists mean', std'. split.
      * cbn [cem_loop]. unfold bind at 1. rewrite Hstep.
        rewrite mean0_elite, std0_elite. cbn [fst snd].
        rewrite Hloop. unfold g'. rewrite advance_advance. reflexivity.
      * rewrite Hc in Hsc, Hit. econstructor; eassumption.
Qed.

(** The whole call, [cem_elite] within range. *)
Lemma cem_run_spec g :
  (0 <= cem_elite a <= num_cem a)%Z ->
  exists action,
    _cem_optimizer a [emb] g
    = (Ok [action], advance (Z.to_nat (cem_iter a) * (n * width a)) g) /\
    Spec.cem a emb (cem_draw_of a g) action.
Proof.
  intros Hk.
  destruct (cem_loop_spec (cem_draw_of a g) Hk (Z.to_nat (cem_iter a)) 0 g
              (replicate (width a) F32.zero)
              (map (fun _ => F32.one) (replicate (width a) F32.zero)))
    as (mean' & std' & Hloop & Hit).
  - apply length_replicate.
  - rewrite length_map. apply length_replicate.
  - intros i j d. reflexivity.
  - exists mean'. split.
    + unfold _cem_optimizer, bind, lift.
      rewrite expand_dim_single by lia. rewrite zeros2_row by exact Hsize.
      unfold torch.ones_like. cbn [map]. fold (width a). fold n. fold hidden.
      rewrite Hloop. reflexivity.
    + exists std'. unfold width in Hit.
      rewrite (replicate_map_seq F32.zero), map_map in Hit. exact Hit.
Qed.

(** The whole call, [cem_elite] beyond [num_cem], at least one iteration. *)
Lemma cem_run_too_many g :
  (num_cem a < cem_elite a)%Z -> (0 < cem_iter a)%Z ->
  _cem_optimizer a [emb] g = (Err TopkOutOfRange, advance (n * width a) g).
Proof.
  intros Hk Hit.
  unfold _cem_optimizer, bind, lift.
  rewrite expand_dim_single by lia. rewrite zeros2_row by exact Hsize.
  destruct (Z.to_nat (cem_iter a)) as [|k] eqn:Hn; [lia|].
  cbn [cem_loop]. unfold bind, cem_step, bind.
  unfold torch.ones_like. cbn [map]. fold (width a).
  rewrite cem_sample_spec
    by (rewrite ?length_map, ?length_replicate; (reflexivity || lia)).
  unfold lift. fold n. fold hidden.
  rewrite (cem_elite_rows_too_many _ Hk (cem_draws_shape a g _ _)).
  reflexivity.
Qed.

End OneEmbedding.

(** The demonstration agent is built as [__init__] builds agents. *)
Lemma built_for_demo n_uniform n_cem iter elite lo hi :
  built_for 1 (Demo.agent n_uniform n_cem iter elite lo hi).
Proof. repeat split. Qed.

Lemma shape3_demo : shape3 2 7 7 Demo.embedding.
Proof. split; [reflexivity|]. repeat constructor. Qed.

Lemma valid_config_demo :
  valid_config (Demo.agent 4 3 2 2 Demo.minus_one F32.one).
Proof. unfold valid_config. simpl. repeat split; lia. Qed.

Create HintDb demo.
#[export] Hint Resolve built_for_demo shape3_demo valid_config_demo : demo.



(** C6. With [cem_iter = 0] and one state embedding, [_cem_optimizer] returns
    the initial mean, the zero vector of dimension [action_size], and draws
    nothing. *)
Theorem cem_zero_iterations a hidden g :
  cem_iter a = 0%Z -> length hidden = 1 ->
  (0 <= num_cem a)%Z -> (0 <= action_size a)%Z ->
  _cem_optimizer a hidden g
  = (Ok [replicate (Z.to_nat (action_size a)) F32.zero], g).
Proof. intros Hit. apply cem_run_zero. lia. Qed.

Lemma cem_zero_iterations_witness :
  _cem_optimizer (Demo.agent 4 3 0 2 Demo.minus_one F32.one) [Demo.embedding] Demo.gen
  = (Ok [[F32.zero]], Demo.gen).
Proof.
  apply (cem_zero_iterations (Demo.agent 4 3 0 2 Demo.minus_one F32.one)
           [Demo.embedding] Demo.gen).
  - reflexivity.
  - reflexivity.
  - simpl. lia.
  - simpl. lia.
Defined.

(** C9. A batch of more than one state embedding, of a size other than
    [num_cem], makes the broadcast of line 95 fail: [_cem_optimizer], and
    [choose_action] through it, raise instead of returning actions.
    ([num_cem = -1] is torch's keep-this-size marker, not a batch size.) *)
Theorem cem_rejects_batches a hidden g :
  1 < length hidden -> Z.of_nat (length hidden) <> num_cem a ->
  num_cem a <> (-1)%Z ->
  _cem_optimizer a hidden g = (Err ExpandError, g) /\
  forall image cur_time,
    state_net a image cur_time = Ok hidden ->
    choose_action a image cur_time true g = (Err ExpandError, g).
Proof.
  intros Hlen Hne Hm1.
  assert (H : _cem_optimizer a hidden g = (Err ExpandError, g)).
  { unfold _cem_optimizer, bind, lift, torch.expand_dim.
    destruct (Z.eqb_spec (num_cem a) (-1)); [contradiction|].
    destruct (Z.ltb_spec (num_cem a) 0); [reflexivity|].
    destruct (Z.eqb_spec (Z.of_nat (length hidden)) (num_cem a)); [contradiction|].
    destruct hidden as [|e1 [|e2 rest]]; simpl in Hlen; try lia. reflexivity. }
  split; [exact H|].
  intros image cur_time Hs. unfold choose_action, bind, lift. rewrite Hs. exact H.
Qed.

Lemma cem_rejects_batches_witness :
  _cem_optimizer (Demo.agent 4 3 2 2 Demo.minus_one F32.one)
                 [Demo.embedding; Demo.embedding] Demo.gen
  = (Err ExpandError, Demo.gen) /\
  forall image cur_time,
    state_net (Demo.agent 4 3 2 2 Demo.minus_one F32.one) image cur_time
    = Ok [Demo.embedding; Demo.embedding] ->
    choose_action (Demo.agent 4 3 2 2 Demo.minus_one F32.one) image cur_time true Demo.gen
    = (Err ExpandError, Demo.gen).
Proof.
  apply (cem_rejects_batches (Demo.agent 4 3 2 2 Demo.minus_one F32.one)
           [Demo.embedding; Demo.embedding] Demo.gen); simpl; lia.
Defined.

(** ** The uniform optimizer *)

Lemma imap_replicate {A B} (f : nat -> A -> B) n x :
  imap f (replicate n x) = map (fun i => f i x) (seq 0 n).
Proof.
  revert f. induction n as [|n IH]; intros f; simpl; [reflexivity|].
  f_equal. rewrite IH, <- seq_shift, map_map. reflexivity.
Qed.

Lemma numel3_replicate b n w :
  torch.numel3 (replicate b (replicate n (replicate w F32.zero))) = b * n * w.
Proof.
  assert (H : forall k, fold_right (fun (cand : Vec) k => length cand + k) k
                          (replicate n (replicate w F32.zero)) = n * w + k).
  { intros k. induction n as [|n IH]; simpl; [reflexivity|].
    rewrite IH, length_replicate. lia. }
  unfold torch.numel3. induction b as [|b IH]; simpl; [reflexivity|].
  rewrite IH, H. lia.
Qed.

Lemma uniform_samples_spec a b g :
  (0 <= num_uniform a)%Z -> (0 <= action_size a)%Z ->
  uniform_samples a (Z.of_nat b) g
  = (Ok (map (uniform_candidates a g) (seq 0 b)),
     advance (b * Z.to_nat (num_uniform a) * width a) g).
Proof.
  intros Hn Ha. unfold uniform_samples, bind, lift, torch.zeros3.
  destruct (Z.ltb_spec (Z.of_nat b) 0); [lia|].
  destruct (Z.ltb_spec (num_uniform a) 0); [lia|].
  destruct (Z.ltb_spec (action_size a) 0); [lia|]. simpl orb. cbv iota.
  unfold torch.uniform_. rewrite Nat2Z.id. fold (width a).
  rewrite numel3_replicate. f_equal. f_equal.
  rewrite imap_replicate. apply map_ext. intros i.
  rewrite imap_replicate. unfold uniform_candidates. apply map_ext. intros j.
  rewrite imap_replicate. rewrite !length_replicate. reflexivity.
Qed.

Lemma uniform_candidates_shape a g i :
  shape2 (Z.to_nat (num_uniform a)) (width a) (uniform_candidates a g i).
Proof.
  unfold uniform_candidates. split.
  - rewrite length_map, length_seq. reflexivity.
  - apply Forall_map, Forall_forall. intros j _. simpl.
    rewrite length_map, length_seq. reflexivity.
Qed.

Lemma take_1_drop {A} (l : list A) i :
  take 1 (drop i l) = match l !! i with Some x => [x] | None => [] end.
Proof.
  revert i. induction l as [|x l IH]; intros i.
  - destruct i; reflexivity.
  - destruct i as [|i]; simpl; [reflexivity|apply IH].
Qed.

(** The row chosen for state [i] is a function of that state's embedding and
    that state's candidates. *)
Lemma uniform_best_local a (h1 h2 : Tensor4) (acts1 acts2 : Tensor3) i :
  h1 !! i = h2 !! i -> acts1 !! i = acts2 !! i ->
  uniform_best a h1 acts1 i = uniform_best a h2 acts2 i.
Proof.
  intros Hh Ha. unfold uniform_best. rewrite !take_1_drop, Hh, Ha. reflexivity.
Qed.

Lemma column_0_singletons n (q : Mat) : shape2 n 1 q -> torch.column 0 q = concat q.
Proof.
  intros [_ Hq]. induction Hq as [|row q Hrow Hq IH]; simpl; [reflexivity|].
  destruct row as [|x [|? ?]]; try discriminate. simpl. f_equal. exact IH.
Qed.

Lemma max0_indices_single n (q : Mat) :
  0 < n -> shape2 n 1 q ->
  exists k, torch.max0_indices q = Ok [k] /\ is_argmax (concat q) k.
Proof.
  intros Hn Hq. pose proof (column_0_singletons n q Hq) as Hcol.
  destruct Hq as [Hlen Hrows]. destruct q as [|row q]; [simpl in Hlen; lia|].
  unfold torch.max0_indices. inversion Hrows as [|? ? Hrow _]; subst.
  rewrite Hrow. cbn [seq rmapM]. rewrite Hcol.
  destruct (torch.argmax (concat (row :: q))) as [k|e] eqn:Hk.
  - exists k. split; [reflexivity|]. apply argmax_spec, Hk.
  - destruct row as [|x ?]; [discriminate|]. discriminate.
Qed.

Lemma uniform_best_spec oc a (hidden : Tensor4) (actions : Tensor3) i emb cands :
  built_for oc a -> shape3 (oc + 1) 7 7 emb -> (0 < num_uniform a)%Z ->
  hidden !! i = Some emb -> actions !! i = Some cands ->
  shape2 (Z.to_nat (num_uniform a)) (width a) cands ->
  exists q k best,
    _forward_q a (replicate (Z.to_nat (num_uniform a)) emb) cands = Ok q /\
    is_argmax (concat q) k /\
    cands !! k = Some best /\
    uniform_best a hidden actions i = Ok [best].
Proof.
  intros Hb Hemb Hn Hh Ha Hc.
  assert (Hs : shape4 (Z.to_nat (num_uniform a)) (oc + 1) 7 7
                 (replicate (Z.to_nat (num_uniform a)) emb)).
  { split; [apply length_replicate|]. apply Forall_replicate, Hemb. }
  assert (Hpos : 0 < Z.to_nat (num_uniform a)) by lia.
  destruct (forward_q_ok oc _ a _ cands Hb Hpos Hs Hc) as (q & Hq & Hqs).
  destruct (max0_indices_single _ q Hpos Hqs) as (k & Hmax & Hk).
  pose proof (is_argmax_lt _ _ Hk) as Hlt.
  rewrite (concat_shape2_one _ q Hqs) in Hlt.
  destruct (cands !! k) as [best|] eqn:Hbest.
  2:{ apply lookup_ge_None in Hbest. destruct Hc as [Hc _]. lia. }
  exists q, k, best. repeat split; try assumption.
  unfold uniform_best. rewrite take_1_drop, Hh, Ha.
  rewrite expand_dim_single by lia. simpl. rewrite Hq. simpl. rewrite Hmax. simpl.
  unfold torch.index_rows. simpl. rewrite Hbest. reflexivity.
Qed.

(** The loop writes slot [i] for every [i] it visits and nothing else. *)
Lemma uniform_loop_char a hidden actions order :
  NoDup order ->
  forall outputs out,
    uniform_loop a hidden actions order outputs = Ok out <->
    length out = length outputs /\
    (forall i, In i order ->
               exists row old, uniform_best a hidden actions i = Ok [row] /\
                               outputs !! i = Some old /\
                               length row = length old /\
                               out !! i = Some row) /\
    (forall i, ~ In i order -> out !! i = outputs !! i).
Proof.
  induction 1 as [|i order Hi Hnd IH]; intros outputs out.
  - simpl. split.
    + intros [= <-]. split; [reflexivity|]. split; [intros ? []|reflexivity].
    + intros (Hlen & _ & Hsame). f_equal. symmetry.
      apply list_eq. intros j. apply Hsame. tauto.
  - cbn [uniform_loop]. unfold uniform_step. split.
    + destruct (uniform_best a hidden actions i) as [best|e] eqn:Hbest; [|discriminate].
      simpl. unfold setitem.
      destruct best as [|row [|? ?]]; destruct (outputs !! i) as [old|] eqn:Hold;
        try discriminate.
      destruct (Nat.eqb_spec (length row) (length old)) as [Hlen|]; [|discriminate].
      simpl. intros Hloop. apply IH in Hloop as (Hl & Hin & Hout).
      rewrite length_insert in Hl. split; [exact Hl|]. split.
      * intros j [<-|Hj].
        -- exists row, old. repeat split; try assumption.
           rewrite Hout by (intros Hc; apply Hi, list_elem_of_In, Hc).
           apply list_lookup_insert_eq. eapply lookup_lt_Some, Hold.
        -- destruct (Hin j Hj) as (r & o & Hb & Ho & Hlr & Hr).
           assert (i <> j) by (intros ->; apply Hi, list_elem_of_In, Hj).
           rewrite list_lookup_insert_ne in Ho by assumption.
           exists r, o. repeat split; assumption.
      * intros j Hj. rewrite Hout by tauto.
        apply list_lookup_insert_ne. intros ->. apply Hj. left. reflexivity.
    + intros (Hl & Hin & Hout).
      destruct (Hin i (or_introl eq_refl)) as (row & old & Hb & Ho & Hlr & Hr).
      rewrite Hb. simpl. unfold setitem. rewrite Ho, Hlr, Nat.eqb_refl. simpl.
      apply IH. rewrite length_insert. split; [exact Hl|]. split.
      * intros j Hj. destruct (Hin j (or_intror Hj)) as (r & o & Hbj & Hoj & Hlj & Hrj).
        assert (i <> j) by (intros ->; apply Hi, list_elem_of_In, Hj).
        exists r, o. rewrite list_lookup_insert_ne by assumption.
        repeat split; assumption.
      * intros j Hj. destruct (Nat.eq_dec i j) as [<-|Hne].
        -- rewrite Hr. symmetry. apply list_lookup_insert_eq.
           eapply lookup_lt_Some, Ho.
        -- rewrite list_lookup_insert_ne by assumption.
           apply Hout. intros [?|?]; [contradiction|contradiction].
Qed.

Lemma uniform_loop_ok a hidden actions w order :
  forall outputs,
    Forall (fun row => length row = w) outputs ->
    (forall i, In i order ->
               i < length outputs /\
               exists row, uniform_best a hidden actions i = Ok [row] /\ length row = w) ->
    exists out, uniform_loop a hidden actions order outputs = Ok out.
Proof.
  induction order as [|i order IH]; intros outputs Hshape Hbest.
  - eexists. reflexivity.
  - destruct (Hbest i (or_introl eq_refl)) as (Hlt & row & Hb & Hrow).
    destruct (lookup_lt_is_Some_2 outputs i Hlt) as [old Hold].
    assert (length old = w) as Hlen.
    { eapply (Forall_lookup_1 _ _ _ _ Hshape); eauto. }
    cbn [uniform_loop]. unfold uniform_step. rewrite Hb. simpl.
    unfold setitem. rewrite Hold, Hrow, Hlen, Nat.eqb_refl. simpl.
    apply IH.
    + apply Forall_insert; assumption.
    + intros j Hj. rewrite length_insert. apply Hbest. right. exact Hj.
Qed.

Lemma zeros2_ok (r c : Z) :
  (0 <= r)%Z -> (0 <= c)%Z ->
  torch.zeros2 r c = Ok (replicate (Z.to_nat r) (replicate (Z.to_nat c) F32.zero)).
Proof.
  intros Hr Hc. unfold torch.zeros2.
  destruct (Z.ltb_spec r 0); [lia|]. destruct (Z.ltb_spec c 0); [lia|]. reflexivity.
Qed.

Lemma zeros2_length (r c : Z) m : torch.zeros2 r c = Ok m -> length m = Z.to_nat r.
Proof.
  unfold torch.zeros2. destruct ((r <? 0)%Z || (c <? 0)%Z); [discriminate|].
  intros [= <-]. apply length_replicate.
Qed.

(** A successful run is a successful loop over [range(b)]. *)
Lemma uniform_run_inv a hidden g out :
  fst (_uniform_optimizer a hidden g) = Ok out ->
  exists outputs actions,
    torch.zeros2 (Z.of_nat (length hidden)) (action_size a) = Ok outputs /\
    fst (uniform_samples a (Z.of_nat (length hidden)) g) = Ok actions /\
    uniform_loop a hidden actions (seq 0 (length hidden)) outputs = Ok out.
Proof.
  unfold _uniform_optimizer, bind, lift.
  destruct (torch.zeros2 _ _) as [outputs|e]; [|discriminate].
  destruct (uniform_samples a _ g) as [[actions|e] g']; [|discriminate].
  simpl. intros H. exists outputs, actions. repeat split. exact H.
Qed.

Lemma uniform_run_spec oc a hidden g :
  built_for oc a -> Forall (shape3 (oc + 1) 7 7) hidden ->
  (0 < num_uniform a)%Z -> (0 <= action_size a)%Z ->
  exists out,
    _uniform_optimizer a hidden g
    = (Ok out, advance (length hidden * Z.to_nat (num_uniform a) * width a) g) /\
    length out = length hidden /\
    forall i emb,
      hidden !! i = Some emb ->
      exists q k best,
        _forward_q a (replicate (Z.to_nat (num_uniform a)) emb)
                   (uniform_candidates a g i) = Ok q /\
        is_argmax (concat q) k /\
        uniform_candidates a g i !! k = Some best /\
        out !! i = Some best.
Proof.
  intros Hb Hh Hn Ha.
  set (actions := map (uniform_candidates a g) (seq 0 (length hidden))).
  set (outputs := replicate (length hidden) (replicate (width a) F32.zero)).
  assert (Hact : forall i, i < length hidden ->
                           actions !! i = Some (uniform_candidates a g i)).
  { intros i Hi. unfold actions. rewrite list_lookup_fmap, lookup_seq_lt by exact Hi.
    reflexivity. }
  assert (Hbest : forall i emb, hidden !! i = Some emb ->
            exists q k best,
              _forward_q a (replicate (Z.to_nat (num_uniform a)) emb)
                         (uniform_candidates a g i) = Ok q /\
              is_argmax (concat q) k /\
              uniform_candidates a g i !! k = Some best /\
              uniform_best a hidden actions i = Ok [best]).
  { intros i emb Hi.
    apply (uniform_best_spec oc a hidden actions i emb); try assumption.
    - eapply Forall_lookup_1; eauto.
    - apply Hact. eapply lookup_lt_Some, Hi.
    - apply uniform_candidates_shape. }
  destruct (uniform_loop_ok a hidden actions (width a) (seq 0 (length hidden)) outputs)
    as [out Hout].
  { apply Forall_replicate, length_replicate. }
  { intros i Hi. apply in_seq in Hi. unfold outputs. rewrite length_replicate.
    split; [lia|].
    destruct (lookup_lt_is_Some_2 hidden i) as [emb Hemb]; [lia|].
    destruct (Hbest i emb Hemb) as (q & k & best & _ & _ & Hk & Hb').
    exists best. split; [exact Hb'|].
    destruct (uniform_candidates_shape a g i) as [_ Hrows].
    eapply (Forall_lookup_1 _ _ _ _ Hrows); eauto. }
  pose proof (proj1 (uniform_loop_char a hidden actions _ (NoDup_seq 0 _) outputs out) Hout)
    as (Hlen & Hin & _).
  exists out. split; [|split].
  - unfold _uniform_optimizer, bind, lift.
    rewrite zeros2_ok by lia. rewrite Nat2Z.id. fold (width a). fold outputs.
    rewrite uniform_samples_spec by lia. fold actions. rewrite Hout. reflexivity.
  - rewrite Hlen. unfold outputs. apply length_replicate.
  - intros i emb Hi.
    destruct (Hbest i emb Hi) as (q & k & best & Hq & Hk & Hc & Hb').
    exists q, k, best. repeat split; try assumption.
    destruct (Hin i) as (row & old & Hrow & _ & _ & Ho).
    { apply in_seq. apply lookup_lt_Some in Hi. lia. }
    rewrite Hb' in Hrow. injection Hrow as <-. exact Ho.
Qed.



(** C8. In [_uniform_optimizer] the action for state [i] is a function of
    state [i]'s embedding and state [i]'s candidates: two successful runs that
    agree on both agree on the action, whatever else their batches hold; and
    visiting the states in any order yields the outputs of the run. *)
Theorem uniform_optimizer_per_state a h1 h2 g1 g2 acts1 acts2 out1 out2 i :
  fst (uniform_samples a (Z.of_nat (length h1)) g1) = Ok acts1 ->
  fst (uniform_samples a (Z.of_nat (length h2)) g2) = Ok acts2 ->
  fst (_uniform_optimizer a h1 g1) = Ok out1 ->
  fst (_uniform_optimizer a h2 g2) = Ok out2 ->
  h1 !! i = h2 !! i -> acts1 !! i = acts2 !! i ->
  out1 !! i = out2 !! i /\
  forall order outputs,
    torch.zeros2 (Z.of_nat (length h1)) (action_size a) = Ok outputs ->
    Permutation order (seq 0 (length h1)) ->
    uniform_loop a h1 acts1 order outputs = Ok out1.
Proof.
  intros Hs1 Hs2 Hr1 Hr2 Hh Hacts.
  apply uniform_run_inv in Hr1 as (o1 & a1 & Hz1 & Ha1 & Hl1).
  apply uniform_run_inv in Hr2 as (o2 & a2 & Hz2 & Ha2 & Hl2).
  rewrite Hs1 in Ha1. injection Ha1 as <-.
  rewrite Hs2 in Ha2. injection Ha2 as <-.
  pose proof (proj1 (uniform_loop_char a h1 acts1 _ (NoDup_seq 0 _) o1 out1) Hl1)
    as (Hlen1 & Hin1 & Hout1).
  pose proof (proj1 (uniform_loop_char a h2 acts2 _ (NoDup_seq 0 _) o2 out2) Hl2)
    as (Hlen2 & Hin2 & _).
  apply zeros2_length in Hz1 as Hlo1. apply zeros2_length in Hz2 as Hlo2.
  rewrite Nat2Z.id in Hlo1, Hlo2.
  split.
  - destruct (h1 !! i) as [emb|] eqn:He1.
    + apply lookup_lt_Some in He1 as Hi1.
      symmetry in Hh. apply lookup_lt_Some in Hh as Hi2.
      destruct (Hin1 i) as (r1 & _ & Hb1 & _ & _ & Ho1); [apply in_seq; lia|].
      destruct (Hin2 i) as (r2 & _ & Hb2 & _ & _ & Ho2); [apply in_seq; lia|].
      rewrite (uniform_best_local a h1 h2 acts1 acts2 i) in Hb1
        by (rewrite ?He1; auto).
      rewrite Hb1 in Hb2. injection Hb2 as <-. rewrite Ho1, Ho2. reflexivity.
    + apply lookup_ge_None in He1. symmetry in Hh. apply lookup_ge_None in Hh.
      rewrite (lookup_ge_None_2 out1), (lookup_ge_None_2 out2) by lia. reflexivity.
  - intros order outputs Hz Hperm. rewrite Hz1 in Hz. injection Hz as <-.
    assert (Hnd : NoDup order) by (rewrite Hperm; apply NoDup_seq).
    apply (uniform_loop_char a h1 acts1 order Hnd). split; [exact Hlen1|]. split.
    + intros j Hj. apply Hin1. eapply Permutation_in; eassumption.
    + intros j Hj. apply Hout1. intros Hc. apply Hj.
      eapply Permutation_in; [symmetry; exact Hperm|exact Hc].
Qed.

Lemma uniform_optimizer_per_state_witness :
  [[F32.zero]; [Demo.num 1 2]] !! 0 = [[F32.zero]; [Demo.num 1 2]; [F32.zero]] !! 0 /\
  forall order outputs,
    torch.zeros2 (Z.of_nat 2) 1 = Ok outputs ->
    Permutation order (seq 0 2) ->
    uniform_loop (Demo.agent 3 3 2 2 Demo.minus_one F32.one)
                 [Demo.embedding; Demo.other_embedding]
                 (map (uniform_candidates (Demo.agent 3 3 2 2 Demo.minus_one F32.one)
                                          Demo.gen) (seq 0 2))
                 order outputs
    = Ok [[F32.zero]; [Demo.num 1 2]].
Proof.
  apply (uniform_optimizer_per_state (Demo.agent 3 3 2 2 Demo.minus_one F32.one)
           [Demo.embedding; Demo.other_embedding]
           [Demo.embedding; Demo.embedding; Demo.other_embedding]
           Demo.gen (advance 4 Demo.gen)
           (map (uniform_candidates (Demo.agent 3 3 2 2 Demo.minus_one F32.one)
                                    Demo.gen) (seq 0 2))
           (map (uniform_candidates (Demo.agent 3 3 2 2 Demo.minus_one F32.one)
                                    (advance 4 Demo.gen)) (seq 0 3))
           [[F32.zero]; [Demo.num 1 2]] [[F32.zero]; [Demo.num 1 2]; [F32.zero]] 0).
  - vm_compute. reflexivity.
  - vm_compute. reflexivity.
  - vm_compute. reflexivity.
  - vm_compute. reflexivity.
  - reflexivity.
  - vm_compute. reflexivity.
Defined.

(** ** Clamping and bounds *)

Lemma clamp1_nan lo hi : torch.clamp1 lo hi S754_nan = S754_nan.
Proof. unfold torch.clamp1. simpl. destruct hi as [[]|[]| |[] ? ?]; reflexivity. Qed.

Lemma clamp1_in_bounds lo hi x :
  F32.leb lo hi = true -> F32.is_nan x = false ->
  in_bounds lo hi (torch.clamp1 lo hi x).
Proof.
  intros Hle Hx. unfold torch.clamp1, in_bounds.
  apply F32Order.leb_key in Hle as (Hlo & Hhi & Hlh).
  destruct (F32.ltb x lo) eqn:Hxl.
  - destruct (F32.ltb hi lo) eqn:Hhl.
    + apply F32Order.ltb_key in Hhl as (_ & _ & Hhl). contradiction.
    + rewrite !F32Order.leb_key. repeat split; try assumption.
      apply F32Order.lex_lt_irrefl.
  - assert (Hxl' : ~ F32.lex_lt (F32.key x) (F32.key lo)).
    { intros Hc. assert (F32.ltb x lo = true) by (apply F32Order.ltb_key; auto).
      congruence. }
    destruct (F32.ltb hi x) eqn:Hhx.
    + rewrite !F32Order.leb_key. repeat split; try assumption.
      apply F32Order.lex_lt_irrefl.
    + rewrite !F32Order.leb_key. repeat split; try assumption.
      intros Hc. assert (F32.ltb hi x = true) by (apply F32Order.ltb_key; auto).
      congruence.
Qed.

Lemma clamp1_nan_or_in_bounds lo hi x :
  F32.leb lo hi = true -> nan_or_in_bounds lo hi (torch.clamp1 lo hi x).
Proof.
  intros Hle. destruct (F32.is_nan x) eqn:Hx.
  - left. destruct x; try discriminate. apply clamp1_nan.
  - right. apply clamp1_in_bounds; assumption.
Qed.

Lemma cem_draws_clamped a g mean std :
  F32.leb (fst (bounds a)) (snd (bounds a)) = true ->
  Forall (Forall (nan_or_in_bounds (fst (bounds a)) (snd (bounds a))))
         (cem_draws a g mean std).
Proof.
  intros Hle. unfold cem_draws. apply Forall_map, Forall_forall. intros j _. simpl.
  apply Forall_map, Forall_forall. intros d _. simpl.
  apply clamp1_nan_or_in_bounds, Hle.
Qed.

Lemma uniform_candidates_in_bounds a g i :
  (forall n, in_bounds (fst (bounds a)) (snd (bounds a))
                       (torch.uniform1 (fst (bounds a)) (snd (bounds a)) (unif g n))) ->
  all_in_bounds (fst (bounds a)) (snd (bounds a)) (uniform_candidates a g i).
Proof.
  intros H. unfold all_in_bounds, uniform_candidates.
  apply Forall_map, Forall_forall. intros j _. simpl.
  apply Forall_map, Forall_forall. intros d _. simpl. apply H.
Qed.

(** The last iteration of a run that has one. *)
Lemma iterate_last a emb z n :
  forall t mean std mean' std',
    Spec.iterate a emb z t (S n) mean std mean' std' ->
    exists t' m s idx sc,
      Spec.scores a emb (Spec.candidates a z m s t') = Ok sc /\
      Spec.is_elite a sc idx /\
      mean' = Spec.sample_mean a (Spec.candidates a z m s t') idx.
Proof.
  induction n as [|n IH]; intros t mean std mean' std' H;
    inversion H as [|? ? ? ? sc idx ? ? Hsc He Hrest]; subst.
  - inversion Hrest; subst. exists t, mean, std, idx, sc. auto.
  - apply IH in Hrest. exact Hrest.
Qed.

Lemma candidates_clamped a z mean std t :
  F32.leb (fst (bounds a)) (snd (bounds a)) = true ->
  Forall (Forall (nan_or_in_bounds (fst (bounds a)) (snd (bounds a))))
         (Spec.candidates a z mean std t).
Proof.
  intros Hle. unfold Spec.candidates. apply Forall_map, Forall_forall. intros j _. simpl.
  unfold Spec.candidate. apply Forall_map, Forall_forall. intros d _. simpl.
  apply clamp1_nan_or_in_bounds, Hle.
Qed.

Lemma Forall_nth_default {A} (P : A -> Prop) (l : list A) d i :
  P d -> Forall P l -> P (nth i l d).
Proof.
  intros Hd Hl. destruct (Nat.lt_ge_cases i (length l)) as [Hi|Hi].
  - apply (proj1 (Forall_forall _ _) Hl), list_elem_of_In, nth_In, Hi.
  - rewrite nth_overflow by exact Hi. exact Hd.
Qed.


Lemma unit_draws_in_bounds n :
  in_bounds Demo.minus_one F32.one
            (torch.uniform1 Demo.minus_one F32.one (unif Demo.gen n)).
Proof.
  unfold Demo.gen, unif.
  assert (H : n mod 4 < 4) by (apply Nat.mod_upper_bound; lia).
  destruct (n mod 4) as [|[|[|[|k]]]]; try lia; split; vm_compute; reflexivity.
Qed.



(** ** Degenerate elite sets *)

Section DivisionByOne.

Local Open Scope Z_scope.

(** Dividing a well-formed number by one is exact.  The quotient of the
    mantissas is computed at exponent [e - 1] (one more bit than needed) for a
    normal number and at [e] for a subnormal one; nothing is rounded off. *)
Lemma div_eucl_exact (q b : Z) : 0 < b -> Z.div_eucl (q * b) b = (q, 0).
Proof.
  intros Hb. destruct (Z.div_eucl (q * b) b) as [q' r'] eqn:E.
  assert (Hq : q' = q * b / b) by (unfold Z.div; rewrite E; reflexivity).
  assert (Hr : r' = (q * b) mod b) by (unfold Z.modulo; rewrite E; reflexivity).
  rewrite Z.div_mul in Hq by lia. rewrite Z.mod_mul in Hr by lia. congruence.
Qed.

Lemma div_one_finite s m e :
  F32.valid (S754_finite s m e) = true ->
  F32.div (S754_finite s m e) F32.one = S754_finite s m e.
Proof.
  unfold F32.valid, valid_binary, bounded, canonical_mantissa, fexp, emin.
  unfold F32.prec, F32.emax.
  intros H. apply andb_true_iff in H as [Hc He].
  apply Z.eqb_eq in Hc. apply Z.leb_le in He.
  unfold F32.div, F32.one, SFdiv.
  unfold SFdiv_core_binary.
  set (d := Z.pos (digits2_pos m)) in *.
  assert (Hd : 0 < d) by (unfold d; lia).
  change (Zdigits2 (Z.pos m)) with d.
  change (Zdigits2 8388608) with 24.
  unfold fexp, emin, F32.prec, F32.emax.
  rewrite xorb_false_r.
  destruct (Z.eq_dec e (-149)) as [->|Hne].
  - replace (Z.min (Z.max (d + -149 - (24 + -23) - 24) (3 - 128 - 24)) (-149 - -23))
      with (-149) by lia.
    change (-149 - -23 - -149) with 23.
    cbv iota beta.
    rewrite Z.shiftl_mul_pow2 by lia. change (2 ^ 23) with 8388608.
    rewrite div_eucl_exact by lia.
    change (new_location 8388608 0) with loc_Exact.
    unfold binary_round_aux, shr_fexp, fexp, emin.
    change (Zdigits2 (Z.pos m)) with d.
    replace (Z.max (d + -149 - 24) (3 - 128 - 24) - -149) with 0 by lia.
    cbn [shr shr_record_of_loc shr_m loc_of_shr_record round_nearest_even].
    change (Zdigits2 (Z.pos m)) with d.
    replace (Z.max (d + -149 - 24) (3 - 128 - 24) - -149) with 0 by lia.
    cbn [shr shr_record_of_loc shr_m]. reflexivity.
  - assert (d = 24 /\ -148 <= e) as [Hd24 He'] by lia.
    replace (Z.min (Z.max (d + e - (24 + -23) - 24) (3 - 128 - 24)) (e - -23))
      with (e - 1) by lia.
    replace (e - -23 - (e - 1)) with 24 by lia.
    cbv iota beta.
    rewrite Z.shiftl_mul_pow2 by lia.
    replace (Z.pos m * 2 ^ 24) with (Z.pos m~0 * 8388608) by lia.
    rewrite div_eucl_exact by lia.
    change (new_location 8388608 0) with loc_Exact.
    unfold binary_round_aux, shr_fexp, fexp, emin.
    change (Zdigits2 (Z.pos m~0)) with (Z.pos (Pos.succ (digits2_pos m))).
    rewrite Pos2Z.inj_succ. fold d.
    replace (Z.max (Z.succ d + (e - 1) - 24) (3 - 128 - 24) - (e - 1)) with 1 by lia.
    cbn [shr shr_record_of_loc SpecFloat.iter_pos shr_1 shr_m orb
         loc_of_shr_record round_nearest_even].
    change (Zdigits2 (Z.pos m)) with d.
    replace (e - 1 + 1) with e by lia.
    replace (Z.max (d + e - 24) (3 - 128 - 24) - e) with 0 by lia.
    cbn [shr shr_record_of_loc shr_m].
    destruct (Z.leb_spec e (128 - 24)); [reflexivity|lia].
Qed.

End DivisionByOne.

Lemma div_one (x : F) : F32.valid x = true -> F32.div x F32.one = x.
Proof.
  destruct x as [[]|[]| |s m e]; try reflexivity. apply div_one_finite.
Qed.

Lemma sub_diag_finite s m e :
  F32.sub (S754_finite s m e) (S754_finite s m e) = S754_zero false.
Proof.
  unfold F32.sub, SFsub. rewrite Z.sub_diag. reflexivity.
Qed.

(** The Bessel-corrected std of a single sample divides by zero. *)
Lemma std1_single_not_finite (x : F) : F32.is_finite (torch.std1 [x]) = false.
Proof.
  unfold torch.std1. cbn [map length torch.sum fold_left].
  generalize (F32.mul (F32.sub x (torch.mean1 [x])) (F32.sub x (torch.mean1 [x]))).
  intros y. change (F32.of_Z (Z.max 0 (Z.of_nat 1 - 1))) with (S754_zero false).
  destruct y as [[]|[]| |[] ? ?]; reflexivity.
Qed.

Lemma std1_single_nan (x : F) : F32.valid x = true -> torch.std1 [x] = S754_nan.
Proof.
  intros Hx. unfold torch.std1, torch.mean1. cbn [map length torch.sum fold_left].
  change (F32.of_Z (Z.of_nat 1)) with F32.one.
  change (F32.of_Z (Z.max 0 (Z.of_nat 1 - 1))) with (S754_zero false).
  destruct x as [[]|[]| |s m e]; try reflexivity.
  change (F32.add F32.zero (S754_finite s m e)) with (S754_finite s m e).
  rewrite (div_one _ Hx), sub_diag_finite. reflexivity.
Qed.




(** ** Where an invalid configuration surfaces *)

(** Scoring an empty batch stops at the [view] of line 78. *)
Lemma forward_q_empty a : _forward_q a [] [] = Err AmbiguousView.
Proof. reflexivity. Qed.

Lemma uniform_run_no_candidates a hidden g :
  num_uniform a = 0%Z -> hidden <> [] -> (0 <= action_size a)%Z ->
  _uniform_optimizer a hidden g = (Err AmbiguousView, g).
Proof.
  intros Hn Hh Ha. destruct hidden as [|emb hidden]; [contradiction|].
  unfold _uniform_optimizer, bind, lift.
  rewrite zeros2_ok by lia.
  rewrite uniform_samples_spec by lia.
  rewrite Hn. change (Z.to_nat 0) with 0. rewrite Nat.mul_0_r, Nat.mul_0_l, advance_0.
  cbn [length seq map uniform_loop]. unfold uniform_step, uniform_best.
  cbn [drop take lookup list_lookup]. rewrite Hn.
  unfold uniform_candidates. rewrite Hn. reflexivity.
Qed.

Lemma uniform_run_negative a hidden g :
  (num_uniform a < 0)%Z -> _uniform_optimizer a hidden g = (Err NegativeDimension, g).
Proof.
  intros Hn. unfold _uniform_optimizer, bind, lift, torch.zeros2.
  destruct ((Z.of_nat (length hidden) <? 0)%Z || (action_size a <? 0)%Z); [reflexivity|].
  unfold uniform_samples, bind, lift, torch.zeros3.
  destruct (Z.ltb_spec (num_uniform a) 0); [|lia].
  rewrite orb_true_r. reflexivity.
Qed.




(** ** The training path *)

Lemma uniform_loop_with_cem a n_cem iter elite hidden actions order outputs :
  uniform_loop (with_cem a n_cem iter elite) hidden actions order outputs
  = uniform_loop a hidden actions order outputs.
Proof.
  revert outputs. induction order as [|i order IH]; intros outputs; [reflexivity|].
  cbn [uniform_loop].
  change (uniform_step (with_cem a n_cem iter elite) hidden actions outputs i)
    with (uniform_step a hidden actions outputs i).
  destruct (uniform_step a hidden actions outputs i); simpl; [apply IH|reflexivity].
Qed.

Lemma uniform_run_with_cem a n_cem iter elite z hidden g :
  fst (_uniform_optimizer (with_cem a n_cem iter elite) hidden (with_gauss g z))
  = fst (_uniform_optimizer a hidden g) /\
  cursor (snd (_uniform_optimizer (with_cem a n_cem iter elite) hidden (with_gauss g z)))
  = cursor (snd (_uniform_optimizer a hidden g)).
Proof.
  unfold _uniform_optimizer, bind, lift.
  change (action_size (with_cem a n_cem iter elite)) with (action_size a).
  destruct (torch.zeros2 _ _) as [outputs|e]; [|split; reflexivity].
  unfold uniform_samples, bind, lift.
  change (num_uniform (with_cem a n_cem iter elite)) with (num_uniform a).
  change (action_size (with_cem a n_cem iter elite)) with (action_size a).
  change (bounds (with_cem a n_cem iter elite)) with (bounds a).
  destruct (torch.zeros3 _ _ _) as [actions|e]; [|split; reflexivity].
  unfold torch.uniform_. cbn [fst snd with_gauss unif cursor].
  rewrite uniform_loop_with_cem. split; reflexivity.
Qed.


(** C10. With an action batch, [forward] hands the batch to [_forward_q] as
    it is: no clamping, no check against the bounds (the bounds do not enter
    the result at all), no random draw. *)
Theorem forward_scores_given_action a image cur_time act g :
  forward a image cur_time (Some act) g
  = (let? hidden := state_net a image cur_time in _forward_q a hidden act, g) /\
  forall b,
    forward (with_bounds a b) image cur_time (Some act) g
    = forward a image cur_time (Some act) g.
Proof.
  split.
  - unfold forward, bind, lift, ret.
    destruct (state_net a image cur_time); reflexivity.
  - intros b. reflexivity.
Qed.

(** An action outside the bounds is scored as given, not as its clamped
    value: with bounds (-1, 1) the action 2 scores -2, its clamped value 1
    scores -1. *)
Example forward_out_of_bounds_action :
  fst (forward (Demo.agent 4 3 2 2 Demo.minus_one F32.one) [Demo.embedding] []
               (Some [[Demo.two]]) Demo.gen)
  = Ok [[F32.of_Z (-2)]] /\
  fst (forward (Demo.agent 4 3 2 2 Demo.minus_one F32.one) [Demo.embedding] []
               (Some (torch.clamp Demo.minus_one F32.one [[Demo.two]])) Demo.gen)
  = Ok [[F32.of_Z (-1)]].
Proof. split; vm_compute; reflexivity. Qed.

(** ** The Q-value head, row by row *)

Lemma rbind_Ok {A B} (r : result A) (f : A -> result B) y :
  rbind r f = Ok y <-> exists x, r = Ok x /\ f x = Ok y.
Proof.
  destruct r as [x|e]; simpl.
  - split; [intros H; exists x; auto|intros (x' & [= <-] & H); exact H].
  - split; [discriminate|intros (x' & H & _); discriminate].
Qed.

Lemma rmapM_cons_Ok {A B} (f : A -> result B) x l ys :
  rmapM f (x :: l) = Ok ys <->
  exists y ys', ys = y :: ys' /\ f x = Ok y /\ rmapM f l = Ok ys'.
Proof.
  simpl. destruct (f x) as [y|e]; simpl.
  - destruct (rmapM f l) as [ys'|e]; simpl.
    + split.
      * intros [= <-]. exists y, ys'. auto.
      * intros (y' & ys'' & -> & [= <-] & [= <-]). reflexivity.
    + split; [discriminate|]. intros (? & ? & _ & _ & H). discriminate.
  - split; [discriminate|]. intros (? & ? & _ & H & _). discriminate.
Qed.

Lemma expand_dim_Ok_same {A} (src out : list A) n :
  length src = n -> (torch.expand_dim src (Z.of_nat n) = Ok out <-> out = src).
Proof.
  intros H. rewrite expand_dim_same by exact H.
  split; [intros [= <-]; reflexivity|intros ->; reflexivity].
Qed.

(** The stages of [_forward_q] after the action network, on rows that are
    already paired with their embeddings. *)
Lemma forward_q_stages a hidden action q :
  _forward_q a hidden action = Ok q <->
  exists o1 o2 flat x1 x2,
    linear (action_net a) action = Ok o1 /\
    expand_as (torch.relu o1) hidden = Ok o2 /\
    flatten (tensor_add hidden o2) = Ok flat /\
    linear (fc1 a) flat = Ok x1 /\
    linear (fc2 a) (torch.relu x1) = Ok x2 /\
    linear (fc3 a) (torch.relu x2) = Ok q.
Proof.
  unfold _forward_q, ActionNetwork_forward. split.
  - intros H.
    apply rbind_Ok in H as (o & H0 & H).
    apply rbind_Ok in H0 as (o1 & H1 & [= <-]).
    apply rbind_Ok in H as (o2 & H2 & H).
    apply rbind_Ok in H as (flat & H3 & H).
    apply rbind_Ok in H as (x1 & H4 & H).
    apply rbind_Ok in H as (x2 & H5 & H).
    exists o1, o2, flat, x1, x2. auto 10.
  - intros (o1 & o2 & flat & x1 & x2 & H1 & H2 & H3 & H4 & H5 & H6).
    rewrite H1. simpl. rewrite H2. simpl. rewrite H3. simpl.
    rewrite H4. simpl. rewrite H5. simpl. exact H6.
Qed.

Lemma forward_q_single a h x :
  _forward_q a [h] [x] = let? s := forward_q_row a h x in Ok [s].
Proof.
  unfold _forward_q, forward_q_row, ActionNetwork_forward, linear, expand_as.
  cbn [rmapM]. destruct (linear_row (action_net a) x) as [y|e]; [|reflexivity].
  cbn [rbind torch.relu map length combine rmapM fst snd].
  rewrite (expand_dim_same [map torch.relu1 y] 1) by reflexivity.
  cbn [rbind combine rmapM fst snd].
  destruct (torch.expand_dim (map torch.relu1 y) (Z.of_nat (length h))) as [c|e];
    [|reflexivity].
  cbn [rbind tensor_add zip_with flatten map rmapM].
  destruct (linear_row (fc1 a) _) as [z1|e]; [|reflexivity].
  cbn [rbind torch.relu map rmapM].
  destruct (linear_row (fc2 a) _) as [z2|e]; [|reflexivity].
  cbn [rbind torch.relu map rmapM].
  destruct (linear_row (fc3 a) _) as [z3|e]; reflexivity.
Qed.

Lemma forward_q_row_Ok a h x s :
  forward_q_row a h x = Ok s <->
  exists y c z1 z2,
    linear_row (action_net a) x = Ok y /\
    torch.expand_dim (map torch.relu1 y) (Z.of_nat (length h)) = Ok c /\
    linear_row (fc1 a)
      (concat (concat (zip_with (zip_with (zip_with F32.add)) h (spread c h))))
    = Ok z1 /\
    linear_row (fc2 a) (map torch.relu1 z1) = Ok z2 /\
    linear_row (fc3 a) (map torch.relu1 z2) = Ok s.
Proof.
  unfold forward_q_row. split.
  - intros H.
    apply rbind_Ok in H as (y & H1 & H).
    apply rbind_Ok in H as (c & H2 & H).
    apply rbind_Ok in H as (z1 & H3 & H).
    apply rbind_Ok in H as (z2 & H4 & H).
    exists y, c, z1, z2. auto 10.
  - intros (y & c & z1 & z2 & H1 & H2 & H3 & H4 & H5).
    rewrite H1. simpl. rewrite H2. simpl. rewrite H3. simpl. rewrite H4. exact H5.
Qed.

Lemma expand_as_length out hidden t :
  expand_as out hidden = Ok t -> length out = length hidden -> length t = length hidden.
Proof.
  unfold expand_as. intros H Hlen.
  rewrite expand_dim_same in H by exact Hlen. simpl in H.
  apply rmapM_length in H. rewrite H, length_combine. lia.
Qed.

Lemma expand_as_cons r rs h hs t :
  length rs = length hs ->
  (expand_as (r :: rs) (h :: hs) = Ok t <->
   exists c t', t = spread c h :: t' /\
                torch.expand_dim r (Z.of_nat (length h)) = Ok c /\
                expand_as rs hs = Ok t').
Proof.
  intros Hlen. unfold expand_as.
  rewrite (expand_dim_same (r :: rs) (length (h :: hs))) by (simpl; lia).
  rewrite (expand_dim_same rs (length hs)) by exact Hlen.
  cbn [rbind combine]. rewrite rmapM_cons_Ok. cbn [fst snd]. split.
  - intros (s & t' & -> & Hs & Ht).
    apply rbind_Ok in Hs as (c & Hc & [= <-]). exists c, t'. auto.
  - intros (c & t' & -> & Hc & Ht). exists (spread c h), t'.
    rewrite Hc. auto.
Qed.

(** A batch with a further row on top: the row is scored on its own. *)
Lemma forward_q_cons a h hs x xs q :
  hs <> [] -> length xs = length hs ->
  (_forward_q a (h :: hs) (x :: xs) = Ok q <->
   exists s q', q = s :: q' /\ forward_q_row a h x = Ok s /\
                _forward_q a hs xs = Ok q').
Proof.
  intros Hne Hlen. rewrite forward_q_stages. split.
  - intros (o1 & o2 & flat & x1 & x2 & H1 & H2 & H3 & H4 & H5 & H6).
    apply rmapM_cons_Ok in H1 as (y & o1' & -> & Hy & H1).
    pose proof (rmapM_length _ _ _ H1) as Hl1.
    cbn [torch.relu map] in H2. fold (torch.relu o1') in H2.
    apply expand_as_cons in H2 as (c & o2' & -> & Hc & H2);
      [|unfold torch.relu; rewrite length_map; lia].
    pose proof (expand_as_length _ _ _ H2) as Hl2.
    unfold torch.relu in Hl2. rewrite length_map in Hl2.
    specialize (Hl2 ltac:(lia)).
    cbn [tensor_add zip_with flatten map] in H3. injection H3 as <-.
    apply rmapM_cons_Ok in H4 as (z1 & x1' & -> & Hz1 & H4).
    cbn [torch.relu map] in H5. fold (torch.relu x1') in H5.
    apply rmapM_cons_Ok in H5 as (z2 & x2' & -> & Hz2 & H5).
    cbn [torch.relu map] in H6. fold (torch.relu x2') in H6.
    apply rmapM_cons_Ok in H6 as (s & q' & -> & Hs & H6).
    exists s, q'. split; [reflexivity|]. split.
    + apply forward_q_row_Ok. exists y, c, z1, z2. auto 10.
    + apply forward_q_stages.
      exists o1', o2', (map (fun sample => concat (concat sample)) (tensor_add hs o2')),
        x1', x2'.
      repeat split; try assumption.
      unfold flatten. destruct (tensor_add hs o2') eqn:Ht; [|reflexivity].
      apply (f_equal length) in Ht. unfold tensor_add in Ht.
      rewrite length_zip_with, Hl2, Nat.min_id in Ht.
      destruct hs; [contradiction|discriminate].
  - intros (s & q' & -> & Hrow & Hrest).
    apply forward_q_row_Ok in Hrow as (y & c & z1 & z2 & Hy & Hc & Hz1 & Hz2 & Hs).
    apply forward_q_stages in Hrest
      as (o1 & o2 & flat & x1 & x2 & H1 & H2 & H3 & H4 & H5 & H6).
    pose proof (rmapM_length _ _ _ H1) as Hl1.
    assert (Hflat : flat = map (fun sample => concat (concat sample)) (tensor_add hs o2)).
    { unfold flatten in H3. destruct (tensor_add hs o2); [discriminate|].
      injection H3 as <-. reflexivity. }
    subst flat.
    exists (y :: o1), (spread c h :: o2),
      (map (fun sample => concat (concat sample)) (tensor_add (h :: hs) (spread c h :: o2))),
      (z1 :: x1), (z2 :: x2).
    split; [|split; [|split; [|split; [|split]]]].
    + apply rmapM_cons_Ok. exists y, o1. auto.
    + cbn [torch.relu map]. fold (torch.relu o1).
      apply expand_as_cons; [unfold torch.relu; rewrite length_map; lia|].
      exists c, o2. auto.
    + reflexivity.
    + cbn [tensor_add zip_with map]. apply rmapM_cons_Ok. exists z1, x1. auto.
    + cbn [torch.relu map]. apply rmapM_cons_Ok. exists z2, x2. auto.
    + cbn [torch.relu map]. apply rmapM_cons_Ok. exists s, q'. auto.
Qed.

(** A batch of [n >= 1] embeddings against [n] actions succeeds exactly when
    every row does, with the scores of the rows. *)
Lemma forward_q_rows a hidden action q :
  hidden <> [] -> length action = length hidden ->
  (_forward_q a hidden action = Ok q <->
   Forall3 (fun h x s => forward_q_row a h x = Ok s) hidden action q).
Proof.
  revert action q. induction hidden as [|h hs IH]; intros action q Hne Hlen;
    [contradiction|].
  destruct action as [|x xs]; [discriminate|]. simpl in Hlen.
  destruct hs as [|h' hs].
  - destruct xs; [|discriminate]. rewrite forward_q_single. split.
    + intros H. apply rbind_Ok in H as (s & Hs & [= <-]).
      repeat constructor. exact Hs.
    + intros H. inversion H as [|? ? ? ? ? ? Hs Hrest]; subst.
      inversion Hrest; subst. rewrite Hs. reflexivity.
  - rewrite forward_q_cons by (lia || discriminate). split.
    + intros (s & q' & -> & Hs & Hrest). constructor; [exact Hs|].
      apply IH; [discriminate|lia|exact Hrest].
    + intros H. inversion H as [|? ? s ? ? q' Hs Hrest]; subst.
      exists s, q'. repeat split; [exact Hs|].
      apply IH; [discriminate|lia|exact Hrest].
Qed.

Lemma rmapM_replicate {A B} (f : A -> result B) x y n :
  f x = Ok y -> rmapM f (replicate n x) = Ok (replicate n y).
Proof.
  intros H. induction n as [|n IH]; simpl; [reflexivity|].
  rewrite H. simpl. rewrite IH. reflexivity.
Qed.

Lemma map_replicate {A B} (f : A -> B) n x :
  map f (replicate n x) = replicate n (f x).
Proof. induction n as [|n IH]; simpl; [reflexivity|]. rewrite IH. reflexivity. Qed.

Lemma rmapM_Err_head {A B} (f : A -> result B) x l e :
  f x = Err e -> rmapM f (x :: l) = Err e.
Proof. intros H. simpl. rewrite H. reflexivity. Qed.

(** A layer fed a row of the wrong width raises, whatever the other rows. *)
Lemma linear_wrong_width l (m : Mat) :
  Exists (fun row => length row <> in_features l) m ->
  linear l m = Err ShapeMismatch.
Proof.
  unfold linear. induction 1 as [row m Hrow|row m _ IH].
  - apply rmapM_Err_head. unfold linear_row.
    destruct (Nat.eqb_spec (length row) (in_features l)); [contradiction|reflexivity].
  - simpl. rewrite IH. unfold linear_row.
    destruct (Nat.eqb (length row) (in_features l)); reflexivity.
Qed.

Lemma linear_right_width l (m : Mat) :
  Forall (fun row => length row = in_features l) m ->
  linear l m = Ok (map (linear_fun l) m).
Proof.
  intros H. apply rmapM_map. eapply Forall_impl; [exact H|].
  intros row Hrow. simpl in Hrow. unfold linear_row.
  rewrite Hrow, Nat.eqb_refl. reflexivity.
Qed.





(** X3. Actions and embeddings whose batch sizes differ are not paired up:
    unless there is exactly one action row, [expand_as] raises. *)
Theorem forward_q_batch_mismatch a hidden action :
  length action <> 1 -> length action <> length hidden ->
  Forall (fun row => length row = in_features (action_net a)) action ->
  _forward_q a hidden action = Err ExpandError.
Proof.
  intros H1 Hne Hrows. unfold _forward_q, ActionNetwork_forward.
  rewrite (linear_right_width _ _ Hrows). cbn [rbind].
  unfold expand_as, torch.expand_dim.
  destruct (Z.eqb_spec (Z.of_nat (length hidden)) (-1)); [lia|].
  destruct (Z.ltb_spec (Z.of_nat (length hidden)) 0); [lia|].
  unfold torch.relu. rewrite !length_map.
  destruct (Z.eqb_spec (Z.of_nat (length action)) (Z.of_nat (length hidden))); [lia|].
  destruct action as [|x [|x' xs]]; simpl in *; try reflexivity. lia.
Qed.

Lemma forward_q_batch_mismatch_witness :
  _forward_q (Demo.agent 4 3 2 2 Demo.minus_one F32.one)
             [Demo.embedding; Demo.other_embedding; Demo.embedding]
             [[Demo.num 1 2]; [F32.zero]]
  = Err ExpandError.
Proof.
  apply (forward_q_batch_mismatch (Demo.agent 4 3 2 2 Demo.minus_one F32.one)
           [Demo.embedding; Demo.other_embedding; Demo.embedding]
           [[Demo.num 1 2]; [F32.zero]]).
  - simpl. lia.
  - simpl. lia.
  - repeat constructor.
Defined.

(** X4. An action row whose width is not the [action_size] the action
    network was built for makes the call raise at that first layer,
    whatever the embeddings. *)
Theorem forward_q_wrong_action_width a hidden action :
  Exists (fun row => length row <> in_features (action_net a)) action ->
  _forward_q a hidden action = Err ShapeMismatch.
Proof.
  intros H. unfold _forward_q, ActionNetwork_forward.
  rewrite (linear_wrong_width _ _ H). reflexivity.
Qed.

Lemma forward_q_wrong_action_width_witness :
  _forward_q (Demo.agent 4 3 2 2 Demo.minus_one F32.one)
             [Demo.embedding; Demo.embedding]
             [[F32.zero]; [F32.zero; F32.one]]
  = Err ShapeMismatch.
Proof.
  apply (forward_q_wrong_action_width (Demo.agent 4 3 2 2 Demo.minus_one F32.one)
           [Demo.embedding; Demo.embedding] [[F32.zero]; [F32.zero; F32.one]]).
  apply Exists_cons_tl, Exists_cons_hd. simpl. lia.
Defined.

(** ** Layer shapes *)

Lemma relu1_not_negative x : F32.ltb (torch.relu1 x) F32.zero = false.
Proof.
  unfold torch.relu1. destruct (F32.ltb x F32.zero) eqn:H; [reflexivity|exact H].
Qed.

(** X5. [ActionNetwork.forward] maps [n] action rows to [n] feature rows, one
    feature per output of its layer, and no feature is below zero. *)
Theorem action_network_output l i o n (input : Mat) :
  linear_shape i o l -> shape2 n i input ->
  exists out,
    ActionNetwork_forward l input = Ok out /\
    shape2 n o out /\
    Forall (Forall (fun v => F32.ltb v F32.zero = false)) out.
Proof.
  intros Hl Hin. unfold ActionNetwork_forward.
  destruct (linear_ok l i o n input Hl Hin) as [-> Hs]. cbn [rbind].
  eexists. split; [reflexivity|]. split; [apply shape2_relu, Hs|].
  unfold torch.relu. apply Forall_map, Forall_forall. intros row _. simpl.
  apply Forall_map, Forall_forall. intros v _. simpl. apply relu1_not_negative.
Qed.

Lemma action_network_output_witness :
  exists out,
    ActionNetwork_forward (action_net (Demo.agent 4 3 2 2 Demo.minus_one F32.one))
                          [[Demo.num 1 2]; [Demo.minus_one]] = Ok out /\
    shape2 2 2 out /\
    Forall (Forall (fun v => F32.ltb v F32.zero = false)) out.
Proof.
  apply (action_network_output
           (action_net (Demo.agent 4 3 2 2 Demo.minus_one F32.one)) 1 2 2
           [[Demo.num 1 2]; [Demo.minus_one]]).
  - repeat split.
  - split; [reflexivity|repeat constructor].
Defined.

Lemma forward_q_plane_mismatch oc n h w a hidden action :
  built_for oc a -> 0 < n ->
  shape4 n (oc + 1) h w hidden -> shape2 n (width a) action ->
  h * w <> 7 * 7 ->
  _forward_q a hidden action = Err ShapeMismatch.
Proof.
  intros (Ha & H1 & _) Hpos Hh Hact Hne.
  unfold _forward_q, ActionNetwork_forward.
  destruct (linear_ok _ _ _ _ _ Ha Hact) as [-> Hs0]. cbn [rbind].
  apply shape2_relu in Hs0.
  destruct (expand_as_ok _ _ _ _ _ _ Hs0 Hh) as (t & -> & Ht). cbn [rbind].
  destruct (flatten_ok _ _ _ _ _ Hpos (shape4_tensor_add _ _ _ _ _ _ Hh Ht))
    as (flat & -> & [Hfl Hfw]). cbn [rbind].
  rewrite linear_wrong_width; [reflexivity|].
  destruct flat as [|row flat]; [simpl in Hfl; lia|].
  apply Exists_cons_hd. inversion Hfw as [|? ? Hrow _]; subst.
  destruct H1 as [-> _]. rewrite Hrow. nia.
Qed.

(** X6. The 7 x 7 of line 62 is a requirement on the embeddings: planes
    with any other number of entries make [_forward_q] raise at [fc1]. *)
Theorem forward_q_wrong_plane_size oc n h w a hidden action :
  built_for oc a -> 0 < n ->
  shape4 n (oc + 1) h w hidden -> shape2 n (width a) action ->
  h * w <> 7 * 7 ->
  _forward_q a hidden action = Err ShapeMismatch.
Proof. apply forward_q_plane_mismatch. Qed.

Lemma forward_q_wrong_plane_size_witness :
  _forward_q (Demo.agent 4 3 2 2 Demo.minus_one F32.one)
             [[replicate 6 (replicate 7 F32.zero); replicate 6 (replicate 7 F32.zero)]]
             [[F32.zero]]
  = Err ShapeMismatch.
Proof.
  apply (forward_q_wrong_plane_size 1 1 6 7
           (Demo.agent 4 3 2 2 Demo.minus_one F32.one)
           [[replicate 6 (replicate 7 F32.zero); replicate 6 (replicate 7 F32.zero)]]
           [[F32.zero]]).
  - apply built_for_demo.
  - lia.
  - split; [reflexivity|]. repeat constructor.
  - split; [reflexivity|]. repeat constructor.
  - lia.
Defined.

(** ** More on the uniform optimizer *)

Lemma gtb_rank_le_trans x y z :
  F32.rank_le x y -> F32.gtb z y = true -> F32.gtb z x = true.
Proof.
  unfold F32.rank_le. rewrite F32Order.gtb_key_false, !F32Order.gtb_key.
  destruct (F32.key x) as [[? ?] ?], (F32.key y) as [[? ?] ?],
    (F32.key z) as [[? ?] ?]; simpl; lia.
Qed.

(** The position [argmax_from] returns holds a score that strictly outranks
    every score before it. *)
Lemma argmax_from_first (l pre : Vec) bi b :
  pre !! bi = Some b ->
  (forall j v, j < bi -> pre !! j = Some v -> F32.gtb b v = true) ->
  (forall j v, pre !! j = Some v -> F32.rank_le v b) ->
  exists sk,
    (pre ++ l) !! torch.argmax_from bi b (length pre) l = Some sk /\
    (forall j v, (pre ++ l) !! j = Some v -> F32.rank_le v sk) /\
    (forall j v, j < torch.argmax_from bi b (length pre) l ->
                 (pre ++ l) !! j = Some v -> F32.gtb sk v = true).
Proof.
  revert pre bi b. induction l as [|v l IH]; intros pre bi b Hb Hfirst Hmax; simpl.
  - rewrite app_nil_r. exists b. auto.
  - replace (pre ++ v :: l) with ((pre ++ [v]) ++ l)
      by (rewrite <- app_assoc; reflexivity).
    replace (S (length pre)) with (length (pre ++ [v]))
      by (rewrite length_app; simpl; lia).
    destruct (F32.gtb v b) eqn:Hgt.
    + apply IH.
      * rewrite lookup_app_r by lia. rewrite Nat.sub_diag. reflexivity.
      * intros j u Hj Hu. rewrite lookup_app_l in Hu by exact Hj.
        eapply gtb_rank_le_trans; [apply (Hmax j u Hu)|exact Hgt].
      * intros j u Hj. destruct (lookup_app_Some pre [v] j u) as [Hsplit _].
        destruct (Hsplit Hj) as [Hpre | [_ Hlast]].
        -- eapply F32Order.rank_le_trans; [apply (Hmax j u Hpre)|].
           apply F32Order.gtb_rank_le, Hgt.
        -- destruct (j - length pre) as [|?]; simpl in Hlast; [|discriminate].
           injection Hlast as <-. apply F32Order.rank_le_refl.
    + apply IH.
      * apply lookup_app_l_Some. exact Hb.
      * intros j u Hj Hu. apply lookup_lt_Some in Hb as Hbi.
        rewrite lookup_app_l in Hu by lia. apply (Hfirst j u Hj Hu).
      * intros j u Hj. destruct (lookup_app_Some pre [v] j u) as [Hsplit _].
        destruct (Hsplit Hj) as [Hpre | [_ Hlast]].
        -- apply (Hmax j u Hpre).
        -- destruct (j - length pre) as [|?]; simpl in Hlast; [|discriminate].
           injection Hlast as <-. exact Hgt.
Qed.

Lemma argmax_first (l : Vec) k :
  torch.argmax l = Ok k ->
  exists sk,
    l !! k = Some sk /\
    (forall j v, l !! j = Some v -> F32.rank_le v sk) /\
    (forall j v, j < k -> l !! j = Some v -> F32.gtb sk v = true).
Proof.
  destruct l as [|v l]; simpl; [discriminate|]. intros [= <-].
  apply (argmax_from_first l [v] 0 v).
  - reflexivity.
  - intros j u Hj. lia.
  - intros [|j] u Hj; simpl in Hj; [|discriminate].
    injection Hj as <-. apply F32Order.rank_le_refl.
Qed.

Lemma max0_indices_first n (q : Mat) :
  0 < n -> shape2 n 1 q ->
  exists k sk,
    torch.max0_indices q = Ok [k] /\
    concat q !! k = Some sk /\
    (forall j v, concat q !! j = Some v -> F32.rank_le v sk) /\
    (forall j v, j < k -> concat q !! j = Some v -> F32.gtb sk v = true).
Proof.
  intros Hn Hq. pose proof (column_0_singletons n q Hq) as Hcol.
  destruct Hq as [Hlen Hrows]. destruct q as [|row q]; [simpl in Hlen; lia|].
  unfold torch.max0_indices. inversion Hrows as [|? ? Hrow _]; subst.
  rewrite Hrow. cbn [seq rmapM]. rewrite Hcol.
  destruct (torch.argmax (concat (row :: q))) as [k|e] eqn:Hk.
  - destruct (argmax_first _ _ Hk) as (sk & H1 & H2 & H3).
    exists k, sk. auto.
  - destruct row as [|x ?]; [discriminate|]. discriminate.
Qed.

(** The loop body on state [i], with the position [torch.max] picks. *)
Lemma uniform_best_first oc a (hidden : Tensor4) (actions : Tensor3) i emb cands :
  built_for oc a -> shape3 (oc + 1) 7 7 emb -> (0 < num_uniform a)%Z ->
  hidden !! i = Some emb -> actions !! i = Some cands ->
  shape2 (Z.to_nat (num_uniform a)) (width a) cands ->
  exists q k sk best,
    _forward_q a (replicate (Z.to_nat (num_uniform a)) emb) cands = Ok q /\
    shape2 (Z.to_nat (num_uniform a)) 1 q /\
    concat q !! k = Some sk /\
    (forall j v, concat q !! j = Some v -> F32.rank_le v sk) /\
    (forall j v, j < k -> concat q !! j = Some v -> F32.gtb sk v = true) /\
    cands !! k = Some best /\
    uniform_best a hidden actions i = Ok [best].
Proof.
  intros Hb Hemb Hn Hh Ha Hc.
  assert (Hpos : 0 < Z.to_nat (num_uniform a)) by lia.
  destruct (forward_q_ok oc _ a _ cands Hb Hpos (shape4_replicate _ _ _ _ _ Hemb) Hc)
    as (q & Hq & Hqs).
  destruct (max0_indices_first _ q Hpos Hqs) as (k & sk & Hmax & Hk & Hle & Hfirst).
  apply lookup_lt_Some in Hk as Hlt. rewrite (concat_shape2_one _ q Hqs) in Hlt.
  destruct (cands !! k) as [best|] eqn:Hbest.
  2:{ apply lookup_ge_None in Hbest. destruct Hc as [Hc _]. lia. }
  exists q, k, sk, best. repeat split; try assumption; try apply Hqs.
  unfold uniform_best. rewrite take_1_drop, Hh, Ha.
  rewrite expand_dim_single by lia. simpl. rewrite Hq. simpl. rewrite Hmax. simpl.
  unfold torch.index_rows. simpl. rewrite Hbest. reflexivity.
Qed.

(** What a successful run stored for state [i]. *)
Lemma uniform_run_row a hidden g out i :
  (0 <= num_uniform a)%Z -> (0 <= action_size a)%Z ->
  fst (_uniform_optimizer a hidden g) = Ok out -> i < length hidden ->
  exists row,
    uniform_best a hidden (map (uniform_candidates a g) (seq 0 (length hidden))) i
    = Ok [row] /\
    out !! i = Some row.
Proof.
  intros Hn Ha Hrun Hi.
  apply uniform_run_inv in Hrun as (outputs & actions & _ & Hact & Hloop).
  rewrite uniform_samples_spec in Hact by assumption. injection Hact as <-.
  apply (uniform_loop_char a hidden _ _ (NoDup_seq 0 _)) in Hloop as (_ & Hin & _).
  destruct (Hin i) as (row & old & Hb & _ & _ & Ho); [apply in_seq; lia|].
  exists row. auto.
Qed.

Lemma concat_singletons_lookup n (q : Mat) k x :
  shape2 n 1 q -> q !! k = Some [x] -> concat q !! k = Some x.
Proof.
  intros [_ Hq]. revert k. induction Hq as [|row q Hrow Hq IH]; intros k Hk.
  - destruct k; discriminate.
  - destruct row as [|y [|? ?]]; try discriminate.
    destruct k as [|k]; simpl in *.
    + injection Hk as ->. reflexivity.
    + apply IH, Hk.
Qed.

Lemma shape2_lookup_single n (q : Mat) k row :
  shape2 n 1 q -> q !! k = Some row -> exists x, row = [x].
Proof.
  intros [_ Hq] Hk. pose proof (Forall_lookup_1 _ _ _ _ Hq Hk) as Hrow.
  simpl in Hrow. destruct row as [|x [|? ?]]; try discriminate. exists x. reflexivity.
Qed.

Lemma uniform_candidates_eq a g1 g2 i b :
  i < b -> cursor g1 = cursor g2 ->
  (forall k, k < b * Z.to_nat (num_uniform a) * width a ->
             unif g1 (cursor g1 + k) = unif g2 (cursor g2 + k)) ->
  uniform_candidates a g1 i = uniform_candidates a g2 i.
Proof.
  intros Hi Hc Hu. unfold uniform_candidates.
  apply map_ext_in. intros j Hj. apply in_seq in Hj.
  apply map_ext_in. intros d Hd. apply in_seq in Hd. f_equal.
  rewrite <- !Nat.add_assoc. apply Hu.
  assert (H1 : i * Z.to_nat (num_uniform a) + j + 1 <= b * Z.to_nat (num_uniform a))
    by nia.
  assert (H2 : (i * Z.to_nat (num_uniform a) + j + 1) * width a
               <= b * Z.to_nat (num_uniform a) * width a)
    by (apply Nat.mul_le_mono_r, H1).
  lia.
Qed.

(** A run on well-shaped embeddings returns one action row per state. *)
Lemma uniform_run_shape oc a hidden g :
  built_for oc a -> Forall (shape3 (oc + 1) 7 7) hidden ->
  (0 < num_uniform a)%Z -> (0 <= action_size a)%Z ->
  exists acts,
    _uniform_optimizer a hidden g
    = (Ok acts, advance (length hidden * Z.to_nat (num_uniform a) * width a) g) /\
    shape2 (length hidden) (width a) acts.
Proof.
  intros Hb Hh Hn Ha.
  destruct (uniform_run_spec oc a hidden g Hb Hh Hn Ha) as (acts & Hrun & Hlen & Hbest).
  exists acts. split; [exact Hrun|]. split; [exact Hlen|].
  apply Forall_lookup. intros i row Hrow.
  destruct (lookup_lt_is_Some_2 hidden i) as [emb Hemb].
  { rewrite <- Hlen. eapply lookup_lt_Some, Hrow. }
  destruct (Hbest i emb Hemb) as (q & k & best & _ & _ & Hk & Ho).
  rewrite Ho in Hrow. injection Hrow as <-.
  destruct (uniform_candidates_shape a g i) as [_ Hrows].
  apply (Forall_lookup_1 _ _ _ _ Hrows Hk).
Qed.

(** X7. Among the candidates of state [i] that share the best score,
    [_uniform_optimizer] returns the one drawn first: the returned candidate
    strictly outscores every candidate drawn before it. *)
Theorem uniform_optimizer_first_best oc a hidden g out i emb :
  built_for oc a -> (0 < num_uniform a)%Z -> (0 <= action_size a)%Z ->
  fst (_uniform_optimizer a hidden g) = Ok out ->
  hidden !! i = Some emb -> shape3 (oc + 1) 7 7 emb ->
  exists q k sk best,
    _forward_q a (replicate (Z.to_nat (num_uniform a)) emb)
               (uniform_candidates a g i) = Ok q /\
    concat q !! k = Some sk /\
    uniform_candidates a g i !! k = Some best /\
    out !! i = Some best /\
    (forall j v, concat q !! j = Some v -> F32.rank_le v sk) /\
    (forall j v, j < k -> concat q !! j = Some v -> F32.gtb sk v = true).
Proof.
  intros Hb Hn Ha Hrun Hi Hemb. apply lookup_lt_Some in Hi as Hlt.
  destruct (uniform_run_row a hidden g out i ltac:(lia) Ha Hrun Hlt)
    as (row & Hbest & Hout).
  destruct (uniform_best_first oc a hidden
              (map (uniform_candidates a g) (seq 0 (length hidden))) i emb
              (uniform_candidates a g i) Hb Hemb Hn Hi)
    as (q & k & sk & best & Hq & _ & Hk & Hle & Hfirst & Hc & Hbest').
  - rewrite list_lookup_fmap, lookup_seq_lt by exact Hlt. reflexivity.
  - apply uniform_candidates_shape.
  - rewrite Hbest in Hbest'. injection Hbest' as ->.
    exists q, k, sk, best. auto 10.
Qed.

Lemma uniform_optimizer_first_best_witness :
  exists q k sk best,
    _forward_q (Demo.agent 4 3 2 2 Demo.minus_one F32.one)
               (replicate 4 Demo.embedding)
               (uniform_candidates (Demo.agent 4 3 2 2 Demo.minus_one F32.one)
                                   Demo.gen 1) = Ok q /\
    concat q !! k = Some sk /\
    uniform_candidates (Demo.agent 4 3 2 2 Demo.minus_one F32.one) Demo.gen 1 !! k
    = Some best /\
    [[F32.zero]; [F32.zero]] !! 1 = Some best /\
    (forall j v, concat q !! j = Some v -> F32.rank_le v sk) /\
    (forall j v, j < k -> concat q !! j = Some v -> F32.gtb sk v = true).
Proof.
  apply (uniform_optimizer_first_best 1 (Demo.agent 4 3 2 2 Demo.minus_one F32.one)
           [Demo.embedding; Demo.embedding] Demo.gen [[F32.zero]; [F32.zero]] 1
           Demo.embedding).
  - apply built_for_demo.
  - simpl. lia.
  - simpl. lia.
  - vm_compute. reflexivity.
  - reflexivity.
  - apply shape3_demo.
Defined.

(** X8. The outcome of [_uniform_optimizer] on [b] states is determined by
    the next [b * num_uniform * action_size] uniform draws of the generator:
    generators that agree on them give the same result, error or not. *)
Theorem uniform_optimizer_reads_window a hidden g1 g2 :
  cursor g1 = cursor g2 ->
  (forall k, k < length hidden * Z.to_nat (num_uniform a) * width a ->
             unif g1 (cursor g1 + k) = unif g2 (cursor g2 + k)) ->
  fst (_uniform_optimizer a hidden g1) = fst (_uniform_optimizer a hidden g2).
Proof.
  intros Hc Hu. unfold _uniform_optimizer, bind, lift.
  destruct (torch.zeros2 _ _) as [outputs|e]; [|reflexivity].
  destruct (Z.ltb_spec (num_uniform a) 0) as [Hn|Hn];
    [|destruct (Z.ltb_spec (action_size a) 0) as [Ha|Ha]].
  - unfold uniform_samples, bind, lift, torch.zeros3.
    destruct (Z.ltb_spec (num_uniform a) 0); [|lia].
    rewrite orb_true_r. reflexivity.
  - unfold uniform_samples, bind, lift, torch.zeros3.
    destruct (Z.ltb_spec (action_size a) 0); [|lia].
    rewrite orb_true_r. reflexivity.
  - rewrite !uniform_samples_spec by assumption.
    replace (map (uniform_candidates a g1) (seq 0 (length hidden)))
      with (map (uniform_candidates a g2) (seq 0 (length hidden))); [reflexivity|].
    apply map_ext_in. intros i Hi. apply in_seq in Hi. symmetry.
    apply (uniform_candidates_eq a g1 g2 i (length hidden)); [lia|assumption..].
Qed.

Lemma uniform_optimizer_reads_window_witness :
  fst (_uniform_optimizer (Demo.agent 4 3 2 2 Demo.minus_one F32.one)
                          [Demo.embedding; Demo.embedding] Demo.gen)
  = fst (_uniform_optimizer (Demo.agent 4 3 2 2 Demo.minus_one F32.one)
                            [Demo.embedding; Demo.embedding]
                            {| gauss := fun _ => F32.one;
                               unif := fun n => if 8 <=? n then F32.one
                                                else unif Demo.gen n;
                               cursor := 0 |}).
Proof.
  apply (uniform_optimizer_reads_window (Demo.agent 4 3 2 2 Demo.minus_one F32.one)
           [Demo.embedding; Demo.embedding] Demo.gen
           {| gauss := fun _ => F32.one;
              unif := fun n => if 8 <=? n then F32.one else unif Demo.gen n;
              cursor := 0 |}).
  - reflexivity.
  - intros k Hk. change (k < 8) in Hk. cbn [cursor unif Nat.add].
    destruct (Nat.leb_spec 8 k); [lia|reflexivity].
Defined.





(** ** More on the cross-entropy optimizer *)

(** Lines 110-113 on any batch of [num_cem] embeddings. *)
Lemma cem_elite_rows_batch oc a hidden action :
  built_for oc a -> (0 < num_cem a)%Z ->
  (0 <= cem_elite a <= num_cem a)%Z ->
  shape4 (Z.to_nat (num_cem a)) (oc + 1) 7 7 hidden ->
  shape2 (Z.to_nat (num_cem a)) (width a) action ->
  exists idx,
    length idx = Z.to_nat (cem_elite a) /\
    cem_elite_rows a hidden action = Ok (map (fun i => nth i action []) idx).
Proof.
  intros Hb Hn Hk Hh Hact.
  assert (Hpos : 0 < Z.to_nat (num_cem a)) by lia.
  destruct (forward_q_ok oc _ a hidden action Hb Hpos Hh Hact) as (q & Hq & Hqs).
  pose proof (concat_shape2_one _ q Hqs) as Hlen.
  destruct (topk_indices_spec (concat q) (cem_elite a))
    as (idx & Htop & Hl & _ & Hlt & _); [lia|].
  exists idx. split; [exact Hl|].
  unfold cem_elite_rows. rewrite Hq. simpl. rewrite Htop. simpl.
  apply index_rows_ok. intros i Hi. apply Hlt in Hi.
  destruct Hact as [-> _]. lia.
Qed.

Lemma cem_loop_batch oc a hidden :
  built_for oc a -> (0 < num_cem a)%Z -> (0 <= action_size a)%Z ->
  (0 <= cem_elite a <= num_cem a)%Z ->
  shape4 (Z.to_nat (num_cem a)) (oc + 1) 7 7 hidden ->
  forall k g mean std,
    length mean = width a -> length std = width a ->
    exists mean' std',
      cem_loop a hidden k [mean] [std] g
      = (Ok ([mean'], [std']),
         advance (k * (Z.to_nat (num_cem a) * width a)) g) /\
      length mean' = width a.
Proof.
  intros Hb Hn Ha Hk Hh. induction k as [|k IH]; intros g mean std Hm Hs.
  - exists mean, std. split; [|exact Hm].
    simpl. unfold ret. rewrite advance_0. reflexivity.
  - destruct (cem_elite_rows_batch oc a hidden (cem_draws a g mean std) Hb Hn Hk Hh
                (cem_draws_shape a g mean std)) as (idx & _ & Hrows).
    set (elite := map (fun i => nth i (cem_draws a g mean std) []) idx) in *.
    destruct (IH (advance (Z.to_nat (num_cem a) * width a) g)
                 (map (fun d => torch.mean1 (torch.column d elite)) (seq 0 (width a)))
                 (map (fun d => torch.std1 (torch.column d elite)) (seq 0 (width a))))
      as (mean' & std' & Hloop & Hlen).
    + rewrite length_map, length_seq. reflexivity.
    + rewrite length_map, length_seq. reflexivity.
    + exists mean', std'. split; [|exact Hlen].
      cbn [cem_loop]. unfold bind at 1. unfold cem_step, bind.
      rewrite cem_sample_spec by (assumption || lia).
      unfold lift. rewrite Hrows. unfold ret. cbn [fst snd].
      unfold torch.mean0, torch.std0. fold elite. rewrite Hloop.
      rewrite advance_advance. reflexivity.
Qed.

Lemma cem_draws_eq a g1 g2 mean std :
  cursor g1 = cursor g2 ->
  (forall k, k < Z.to_nat (num_cem a) * width a ->
             gauss g1 (cursor g1 + k) = gauss g2 (cursor g2 + k)) ->
  cem_draws a g1 mean std = cem_draws a g2 mean std.
Proof.
  intros Hc Hg. unfold cem_draws.
  apply map_ext_in. intros j Hj. apply in_seq in Hj.
  apply map_ext_in. intros d Hd. apply in_seq in Hd. do 3 f_equal.
  rewrite <- !Nat.add_assoc. apply Hg.
  assert (H1 : (j + 1) * width a <= Z.to_nat (num_cem a) * width a)
    by (apply Nat.mul_le_mono_r; lia).
  lia.
Qed.

Lemma cem_loop_window a hidden :
  (0 <= num_cem a)%Z -> (0 <= action_size a)%Z ->
  forall k g1 g2 mean std,
    length mean = width a -> length std = width a ->
    cursor g1 = cursor g2 ->
    (forall i, i < k * (Z.to_nat (num_cem a) * width a) ->
               gauss g1 (cursor g1 + i) = gauss g2 (cursor g2 + i)) ->
    fst (cem_loop a hidden k [mean] [std] g1)
    = fst (cem_loop a hidden k [mean] [std] g2).
Proof.
  intros Hn Ha. induction k as [|k IH]; intros g1 g2 mean std Hm Hs Hc Hg.
  - reflexivity.
  - cbn [cem_loop]. unfold bind at 1 2. unfold cem_step, bind.
    rewrite !cem_sample_spec by assumption.
    rewrite (cem_draws_eq a g1 g2 mean std Hc) by (intros i Hi; apply Hg; lia).
    unfold lift.
    destruct (cem_elite_rows a hidden (cem_draws a g2 mean std)) as [elite|e];
      [|reflexivity].
    unfold ret. cbn [fst snd]. unfold torch.mean0, torch.std0. apply IH.
    + rewrite length_map, length_seq. reflexivity.
    + rewrite length_map, length_seq. reflexivity.
    + simpl. lia.
    + intros i Hi. cbn [advance gauss cursor].
      rewrite <- !Nat.add_assoc. apply Hg. lia.
Qed.

Lemma clamp1_inverted lo hi x :
  F32.ltb hi lo = true ->
  torch.clamp1 lo hi x = hi \/ torch.clamp1 lo hi x = S754_nan.
Proof.
  intros Hinv. unfold torch.clamp1.
  destruct (F32.ltb x lo) eqn:Hxl.
  - rewrite Hinv. left. reflexivity.
  - destruct (F32.ltb hi x) eqn:Hhx; [left; reflexivity|].
    right. destruct (F32.is_nan x) eqn:Hnan.
    + destruct x; try discriminate. reflexivity.
    + exfalso. apply F32Order.ltb_key in Hinv as (Hh & Hl & Hlt).
      assert (H1 : ~ F32.lex_lt (F32.key x) (F32.key lo)).
      { intros Hc. assert (F32.ltb x lo = true) by (apply F32Order.ltb_key; auto).
        congruence. }
      assert (H2 : ~ F32.lex_lt (F32.key hi) (F32.key x)).
      { intros Hc. assert (F32.ltb hi x = true) by (apply F32Order.ltb_key; auto).
        congruence. }
      apply H2. clear - H1 Hlt.
      destruct (F32.key x) as [[? ?] ?], (F32.key lo) as [[? ?] ?],
        (F32.key hi) as [[? ?] ?]; simpl in *; lia.
Qed.

Lemma mean1_empty : torch.mean1 [] = S754_nan.
Proof. reflexivity. Qed.

Lemma iterate_length a emb z :
  forall n t mean std mean' std',
    Spec.iterate a emb z t n mean std mean' std' ->
    length mean = width a -> length mean' = width a.
Proof.
  induction n as [|n IH]; intros t mean std mean' std' H Hm;
    inversion H as [|? ? ? ? sc idx ? ? Hsc He Hrest]; subst.
  - exact Hm.
  - apply IH in Hrest; [exact Hrest|].
    unfold Spec.sample_mean. rewrite length_map, length_seq. reflexivity.
Qed.

Lemma cem_action_length a emb z action :
  Spec.cem a emb z action -> length action = width a.
Proof.
  intros [std H]. apply iterate_length in H; [exact H|].
  rewrite length_map, length_seq. reflexivity.
Qed.

Lemma cem_run_batch oc a hidden g :
  built_for oc a -> (0 < num_cem a)%Z -> (0 <= action_size a)%Z ->
  (0 <= cem_elite a <= num_cem a)%Z ->
  shape4 (Z.to_nat (num_cem a)) (oc + 1) 7 7 hidden ->
  exists action,
    _cem_optimizer a hidden g
    = (Ok [action],
       advance (Z.to_nat (cem_iter a) * (Z.to_nat (num_cem a) * width a)) g) /\
    length action = width a.
Proof.
  intros Hb Hn Ha Hk Hh.
  destruct (cem_loop_batch oc a hidden Hb Hn Ha Hk Hh (Z.to_nat (cem_iter a)) g
              (replicate (width a) F32.zero) (replicate (width a) F32.one))
    as (mean' & std' & Hloop & Hlen); try apply length_replicate.
  exists mean'. split; [|exact Hlen].
  unfold _cem_optimizer, bind, lift.
  replace (num_cem a) with (Z.of_nat (Z.to_nat (num_cem a))) at 1 by lia.
  rewrite expand_dim_same by apply Hh.
  rewrite zeros2_row by exact Ha. unfold torch.ones_like. cbn [map].
  fold (width a). rewrite map_replicate, Hloop. reflexivity.
Qed.



(** X12. The outcome of [_cem_optimizer] is determined by the next
    [cem_iter * num_cem * action_size] normal draws of the generator:
    generators that agree on them give the same result, error or not. *)
Theorem cem_optimizer_reads_window a hidden g1 g2 :
  (0 <= num_cem a)%Z -> cursor g1 = cursor g2 ->
  (forall k, k < Z.to_nat (cem_iter a) * (Z.to_nat (num_cem a) * width a) ->
             gauss g1 (cursor g1 + k) = gauss g2 (cursor g2 + k)) ->
  fst (_cem_optimizer a hidden g1) = fst (_cem_optimizer a hidden g2).
Proof.
  intros Hn Hc Hg. unfold _cem_optimizer, bind, lift.
  destruct (torch.expand_dim hidden (num_cem a)) as [h|e]; [|reflexivity].
  destruct (Z.ltb_spec (action_size a) 0) as [Ha|Ha].
  - unfold torch.zeros2. destruct (Z.ltb_spec (action_size a) 0); [|lia].
    reflexivity.
  - rewrite zeros2_row by exact Ha. unfold torch.ones_like. cbn [map].
    fold (width a). rewrite map_replicate.
    pose proof (cem_loop_window a h Hn Ha (Z.to_nat (cem_iter a)) g1 g2
                  (replicate (width a) F32.zero) (replicate (width a) F32.one)
                  (length_replicate _ _) (length_replicate _ _) Hc Hg) as Heq.
    destruct (cem_loop a h _ _ _ g1) as [[ms1|e1] g1'],
      (cem_loop a h _ _ _ g2) as [[ms2|e2] g2']; simpl in Heq;
      try discriminate; injection Heq as ->; reflexivity.
Qed.

Lemma cem_optimizer_reads_window_witness :
  fst (_cem_optimizer (Demo.agent 4 3 2 2 Demo.minus_one F32.one)
                      [Demo.embedding] Demo.gen)
  = fst (_cem_optimizer (Demo.agent 4 3 2 2 Demo.minus_one F32.one)
                        [Demo.embedding]
                        {| gauss := fun n => if 6 <=? n then F32.one
                                             else gauss Demo.gen n;
                           unif := fun _ => F32.zero;
                           cursor := 0 |}).
Proof.
  apply (cem_optimizer_reads_window (Demo.agent 4 3 2 2 Demo.minus_one F32.one)
           [Demo.embedding] Demo.gen
           {| gauss := fun n => if 6 <=? n then F32.one else gauss Demo.gen n;
              unif := fun _ => F32.zero;
              cursor := 0 |}).
  - simpl. lia.
  - reflexivity.
  - intros k Hk. change (k < 6) in Hk. cbn [cursor gauss Nat.add].
    destruct (Nat.leb_spec 6 k); [lia|reflexivity].
Defined.





(** ** The state network *)

Lemma rmapM_shape {A B} (f : A -> result B) (P : A -> Prop) (Q : B -> Prop) l :
  (forall x, P x -> exists y, f x = Ok y /\ Q y) ->
  Forall P l ->
  exists ys, rmapM f l = Ok ys /\ length ys = length l /\ Forall Q ys.
Proof.
  intros Hf. induction 1 as [|x l Hx _ (ys & Hys & Hlen & HQ)].
  - exists []. repeat split. constructor.
  - destruct (Hf x Hx) as (y & Hy & Hq). exists (y :: ys). simpl.
    rewrite Hy, Hys. simpl. repeat split; [lia|constructor; assumption].
Qed.

(** A stage that raises on the first sample raises on the batch. *)
Lemma rmapM_head_Err {A B} (f : A -> result B) (P : A -> Prop) e l :
  (forall x, P x -> f x = Err e) -> l <> [] -> Forall P l -> rmapM f l = Err e.
Proof.
  intros Hf Hne Hl. destruct Hl as [|x l Hx _]; [contradiction|].
  simpl. rewrite (Hf x Hx). reflexivity.
Qed.

Lemma Forall_zip_with_any {A B C} (P : C -> Prop) (f : A -> B -> C) l k :
  (forall x y, P (f x y)) -> Forall P (zip_with f l k).
Proof.
  intros Hf. revert k. induction l as [|x l IH]; intros [|y k]; simpl;
    constructor; auto.
Qed.

Lemma shape2_table (f : nat -> nat -> F) h w :
  shape2 h w (map (fun i => map (fun j => f i j) (seq 0 w)) (seq 0 h)).
Proof.
  split.
  - rewrite length_map, length_seq. reflexivity.
  - apply Forall_map, Forall_forall. intros i _. simpl.
    rewrite length_map, length_seq. reflexivity.
Qed.

Lemma sample_sizes c h w (sample : Tensor3) :
  shape3 c h w sample -> 0 < c ->
  nn.height sample = h /\ (0 < h -> nn.plane_width sample = w).
Proof.
  intros [Hc Hs] Hpos. destruct Hs as [|plane sample [Hh Hw] _]; [simpl in Hc; lia|].
  unfold nn.height, nn.plane_width. simpl. split; [exact Hh|].
  intros Hh'. destruct Hw as [|row plane Hrow _]; [simpl in Hh; lia|exact Hrow].
Qed.

Lemma conv2d_sample_ok cin cout k p c h w (sample : Tensor3) :
  conv_shape cin cout k p c -> shape3 cin h w sample ->
  0 < cin -> 0 < h -> k <= h + 2 * p -> k <= w + 2 * p ->
  exists out,
    nn.conv2d_sample c sample = Ok out /\
    shape3 cout (h + 2 * p - k + 1) (w + 2 * p - k + 1) out.
Proof.
  intros (Hin & Hk & Hp & Hw & Hb) Hs Hcin Hh Hkh Hkw.
  destruct (sample_sizes _ _ _ _ Hs Hcin) as [Hht Hwd]. specialize (Hwd Hh).
  unfold nn.conv2d_sample. rewrite Hht, Hwd, Hin, Hk, Hp.
  destruct Hs as [Hlen _]. rewrite Hlen, Nat.eqb_refl. cbn [negb].
  destruct (Nat.ltb_spec (h + 2 * p) k); [lia|].
  destruct (Nat.ltb_spec (w + 2 * p) k); [lia|]. cbn [orb].
  eexists. split; [reflexivity|]. split.
  - rewrite length_zip_with. lia.
  - apply Forall_zip_with_any. intros filter b.
    apply shape2_table.
Qed.

Lemma conv2d_sample_small cin cout k p c h w (sample : Tensor3) :
  conv_shape cin cout k p c -> shape3 cin h w sample -> 0 < cin ->
  h + 2 * p < k \/ (0 < h /\ w + 2 * p < k) ->
  nn.conv2d_sample c sample = Err ShapeMismatch.
Proof.
  intros (Hin & Hk & Hp & Hw & Hb) Hs Hcin Hsmall.
  destruct (sample_sizes _ _ _ _ Hs Hcin) as [Hht Hwd].
  unfold nn.conv2d_sample. rewrite Hht, Hin, Hk, Hp.
  destruct Hs as [Hlen _]. rewrite Hlen, Nat.eqb_refl. cbn [negb].
  destruct Hsmall as [Hsmall|[Hh Hsmall]].
  - destruct (Nat.ltb_spec (h + 2 * p) k); [reflexivity|lia].
  - rewrite (Hwd Hh).
    destruct (Nat.ltb_spec (w + 2 * p) k); [|lia].
    rewrite orb_true_r. reflexivity.
Qed.

Lemma shape4_relu4 b c h w (x : Tensor4) :
  shape4 b c h w x -> shape4 b c h w (nn.relu4 x).
Proof.
  intros [Hb Hx]. split; [unfold nn.relu4; rewrite length_map; exact Hb|].
  unfold nn.relu4. apply Forall_map. eapply Forall_impl; [exact Hx|].
  intros sample [Hc Hs]. simpl. split; [rewrite length_map; exact Hc|].
  apply Forall_map. eapply Forall_impl; [exact Hs|].
  intros plane Hp. simpl. apply shape2_relu, Hp.
Qed.

Lemma max_pool_plane_ok h w (plane : Mat) :
  shape2 h w plane -> 2 <= h -> 2 <= w ->
  exists out, nn.max_pool_plane plane = Ok out /\ shape2 (h / 2) (w / 2) out.
Proof.
  intros [Hh Hw] Hh2 Hw2. unfold nn.max_pool_plane. rewrite Hh.
  assert (Hwd : length (hd [] plane) = w).
  { destruct Hw as [|row plane Hrow _]; [simpl in Hh; lia|exact Hrow]. }
  rewrite Hwd.
  destruct (Nat.ltb_spec h 2); [lia|]. destruct (Nat.ltb_spec w 2); [lia|]. cbn [orb].
  eexists. split; [reflexivity|]. apply shape2_table.
Qed.

Lemma max_pool_plane_small h w (plane : Mat) :
  shape2 h w plane -> h < 2 \/ w < 2 ->
  nn.max_pool_plane plane = Err ShapeMismatch.
Proof.
  intros [Hh Hw] Hsmall. unfold nn.max_pool_plane. rewrite Hh.
  destruct (Nat.ltb_spec h 2); [reflexivity|].
  assert (Hwd : length (hd [] plane) = w).
  { destruct Hw as [|row plane Hrow _]; [simpl in Hh; lia|exact Hrow]. }
  rewrite Hwd. destruct (Nat.ltb_spec w 2); [|lia]. reflexivity.
Qed.

Lemma conv2d_ok cin cout k p c b h w (x : Tensor4) :
  conv_shape cin cout k p c -> shape4 b cin h w x ->
  0 < cin -> 0 < h -> k <= h + 2 * p -> k <= w + 2 * p ->
  exists out,
    nn.conv2d c x = Ok out /\
    shape4 b cout (h + 2 * p - k + 1) (w + 2 * p - k + 1) out.
Proof.
  intros Hc [Hb Hx] Hcin Hh Hkh Hkw.
  destruct (rmapM_shape (nn.conv2d_sample c) (shape3 cin h w)
              (shape3 cout (h + 2 * p - k + 1) (w + 2 * p - k + 1)) x)
    as (out & Hout & Hlen & Hshape); [|exact Hx|].
  - intros sample Hs. eapply conv2d_sample_ok; eassumption.
  - exists out. split; [exact Hout|]. split; [lia|exact Hshape].
Qed.

Lemma conv2d_small cin cout k p c b h w (x : Tensor4) :
  conv_shape cin cout k p c -> shape4 b cin h w x -> 0 < b -> 0 < cin ->
  h + 2 * p < k \/ (0 < h /\ w + 2 * p < k) ->
  nn.conv2d c x = Err ShapeMismatch.
Proof.
  intros Hc [Hb Hx] Hpos Hcin Hsmall.
  apply (rmapM_head_Err _ (shape3 cin h w));
    [|destruct x; [simpl in Hb; lia|discriminate]|exact Hx].
  intros sample Hs. eapply conv2d_sample_small; eassumption.
Qed.

Lemma max_pool2d_ok b c h w (x : Tensor4) :
  shape4 b c h w x -> 2 <= h -> 2 <= w ->
  exists out, nn.max_pool2d x = Ok out /\ shape4 b c (h / 2) (w / 2) out.
Proof.
  intros [Hb Hx] Hh Hw.
  destruct (rmapM_shape (rmapM nn.max_pool_plane) (shape3 c h w)
              (shape3 c (h / 2) (w / 2)) x)
    as (out & Hout & Hlen & Hshape); [|exact Hx|].
  - intros sample [Hc Hs].
    destruct (rmapM_shape nn.max_pool_plane (shape2 h w) (shape2 (h / 2) (w / 2)) sample)
      as (o & Ho & Hl & Hsh); [|exact Hs|].
    + intros plane Hp. apply max_pool_plane_ok; assumption.
    + exists o. split; [exact Ho|]. split; [lia|exact Hsh].
  - exists out. split; [exact Hout|]. split; [lia|exact Hshape].
Qed.

Lemma max_pool2d_small b c h w (x : Tensor4) :
  shape4 b c h w x -> 0 < b -> 0 < c -> h < 2 \/ w < 2 ->
  nn.max_pool2d x = Err ShapeMismatch.
Proof.
  intros [Hb Hx] Hpos Hc Hsmall.
  apply (rmapM_head_Err _ (shape3 c h w));
    [|destruct x; [simpl in Hb; lia|discriminate]|exact Hx].
  intros sample [Hlen Hs].
  apply (rmapM_head_Err _ (shape2 h w));
    [|destruct sample; [simpl in Hlen; lia|discriminate]|exact Hs].
  intros plane Hp. eapply max_pool_plane_small; eassumption.
Qed.

(** One round: convolution, ReLU, pooling. *)
Lemma round_ok cin cout p c b h w (x : Tensor4) h' w' :
  conv_shape cin cout 3 p c -> shape4 b cin h w x ->
  0 < cin -> p <= 1 -> 4 <= h + 2 * p -> 4 <= w + 2 * p ->
  h' = (h + 2 * p - 2) / 2 -> w' = (w + 2 * p - 2) / 2 ->
  exists out,
    (let? y := nn.conv2d c x in nn.max_pool2d (nn.relu4 y)) = Ok out /\
    shape4 b cout h' w' out.
Proof.
  intros Hc Hx Hcin Hp Hh Hw -> ->.
  destruct (conv2d_ok cin cout 3 p c b h w x Hc Hx Hcin) as (y & -> & Hy); try lia.
  cbn [rbind]. apply shape4_relu4 in Hy.
  destruct (max_pool2d_ok _ _ _ _ _ Hy) as (out & -> & Hout); try lia.
  exists out. split; [reflexivity|].
  replace (h + 2 * p - 2) with (h + 2 * p - 3 + 1) by lia.
  replace (w + 2 * p - 2) with (w + 2 * p - 3 + 1) by lia.
  exact Hout.
Qed.

Lemma round_small cin cout p c b h w (x : Tensor4) :
  conv_shape cin cout 3 p c -> shape4 b cin h w x ->
  0 < b -> 0 < cin -> 0 < cout -> p <= 1 ->
  h + 2 * p < 4 \/ w + 2 * p < 4 ->
  (let? y := nn.conv2d c x in nn.max_pool2d (nn.relu4 y)) = Err ShapeMismatch.
Proof.
  intros Hc Hx Hb Hcin Hcout Hp Hsmall.
  destruct (Nat.lt_ge_cases (h + 2 * p) 3) as [Hh|Hh].
  { rewrite (conv2d_small cin cout 3 p c b h w x Hc Hx Hb Hcin); [reflexivity|lia]. }
  destruct (Nat.lt_ge_cases (w + 2 * p) 3) as [Hw|Hw].
  { rewrite (conv2d_small cin cout 3 p c b h w x Hc Hx Hb Hcin); [reflexivity|lia]. }
  destruct (conv2d_ok cin cout 3 p c b h w x Hc Hx Hcin) as (y & -> & Hy); try lia.
  cbn [rbind]. apply shape4_relu4 in Hy.
  apply (max_pool2d_small _ _ _ _ _ Hy Hb Hcout). lia.
Qed.

Lemma net_rounds s image :
  StateNetwork_net s image
  = let? x := (let? y := nn.conv2d (conv1 s) image in nn.max_pool2d (nn.relu4 y)) in
    let? x := (let? y := nn.conv2d (conv2 s) x in nn.max_pool2d (nn.relu4 y)) in
    let? y := nn.conv2d (conv3 s) x in nn.max_pool2d (nn.relu4 y).
Proof.
  unfold StateNetwork_net.
  destruct (nn.conv2d (conv1 s) image) as [x1|e]; [|reflexivity]. cbn [rbind].
  destruct (nn.max_pool2d (nn.relu4 x1)) as [x2|e]; [|reflexivity]. cbn [rbind].
  destruct (nn.conv2d (conv2 s) x2) as [x3|e]; reflexivity.
Qed.

Lemma net_ok cin cout s b h w image :
  state_network_built_for cin cout s -> 0 < cin -> 0 < cout ->
  shape4 b cin h w image -> 10 <= h -> 10 <= w ->
  exists feat,
    StateNetwork_net s image = Ok feat /\
    shape4 b cout (feature_size h) (feature_size w) feat.
Proof.
  intros (H1 & H2 & H3) Hcin Hcout Himg Hh Hw. rewrite net_rounds.
  destruct (round_ok cin cout 0 _ b h w image ((h - 2) / 2) ((w - 2) / 2) H1 Himg)
    as (x1 & -> & Hx1); try lia; try (f_equal; lia).
  cbn [rbind].
  destruct (round_ok cout cout 1 _ b _ _ x1 ((h - 2) / 2 / 2) ((w - 2) / 2 / 2) H2 Hx1)
    as (x2 & -> & Hx2); try lia; try (f_equal; lia).
  cbn [rbind].
  destruct (round_ok cout cout 1 _ b _ _ x2 (feature_size h) (feature_size w) H3 Hx2)
    as (x3 & Hr & Hx3); try lia; try (unfold feature_size; f_equal; lia).
  exists x3. split; [exact Hr|exact Hx3].
Qed.

Lemma net_small cin cout s b h w image :
  state_network_built_for cin cout s -> 0 < cin -> 0 < cout -> 0 < b ->
  shape4 b cin h w image -> h < 10 \/ w < 10 ->
  StateNetwork_net s image = Err ShapeMismatch.
Proof.
  intros (H1 & H2 & H3) Hcin Hcout Hb Himg Hsmall. rewrite net_rounds.
  destruct (Nat.lt_ge_cases h 4) as [Hh1|Hh1].
  { rewrite (round_small cin cout 0 _ b h w image H1 Himg); [reflexivity|lia..]. }
  destruct (Nat.lt_ge_cases w 4) as [Hw1|Hw1].
  { rewrite (round_small cin cout 0 _ b h w image H1 Himg); [reflexivity|lia..]. }
  destruct (round_ok cin cout 0 _ b h w image ((h - 2) / 2) ((w - 2) / 2) H1 Himg)
    as (x1 & -> & Hx1); try lia; try (f_equal; lia).
  cbn [rbind].
  destruct (Nat.lt_ge_cases ((h - 2) / 2) 2) as [Hh2|Hh2].
  { rewrite (round_small cout cout 1 _ b _ _ x1 H2 Hx1); [reflexivity|lia..]. }
  destruct (Nat.lt_ge_cases ((w - 2) / 2) 2) as [Hw2|Hw2].
  { rewrite (round_small cout cout 1 _ b _ _ x1 H2 Hx1); [reflexivity|lia..]. }
  destruct (round_ok cout cout 1 _ b _ _ x1 ((h - 2) / 2 / 2) ((w - 2) / 2 / 2) H2 Hx1)
    as (x2 & -> & Hx2); try lia; try (f_equal; lia).
  cbn [rbind].
  apply (round_small cout cout 1 _ b _ _ x2 H3 Hx2); try lia.
Qed.

Lemma cat_planes c h w (feat : Tensor4) (timestep : Vec) :
  length timestep = length feat -> Forall (shape3 c h w) feat ->
  Forall3 (fun sample t out => out = sample ++ [replicate h (replicate w t)])
          feat timestep (zip_with app feat (timestep_planes timestep h w)) /\
  Forall (shape3 (c + 1) h w) (zip_with app feat (timestep_planes timestep h w)).
Proof.
  intros Hlen Hf. revert timestep Hlen.
  induction Hf as [|sample feat Hs Hf IH]; intros [|t timestep] Hlen;
    try discriminate.
  - split; constructor.
  - destruct (IH timestep) as [H3 Hsh]; [simpl in Hlen; lia|].
    cbn [timestep_planes map zip_with]. split.
    + constructor; [reflexivity|exact H3].
    + constructor; [|exact Hsh]. destruct Hs as [Hc Hp]. split.
      * rewrite length_app. simpl. lia.
      * apply Forall_app. split; [exact Hp|]. constructor; [|constructor].
        split; [apply length_replicate|]. apply Forall_replicate, length_replicate.
Qed.

(** Lines 28-31 on features of shape (b, c, h, w). *)
Lemma state_network_cat s image timestep feat b c h w :
  StateNetwork_net s image = Ok feat -> shape4 b c h w feat ->
  0 < c -> 0 < h -> length timestep = b ->
  exists hidden,
    StateNetwork_forward s image timestep = Ok hidden /\
    shape4 b (c + 1) h w hidden /\
    Forall3 (fun sample t out => out = sample ++ [replicate h (replicate w t)])
            feat timestep hidden.
Proof.
  intros Hnet [Hb Hf] Hc Hh Hlen.
  exists (zip_with app feat (timestep_planes timestep h w)).
  destruct (cat_planes c h w feat timestep ltac:(lia) Hf) as [H3 Hsh].
  split; [|split; [split; [|exact Hsh]|exact H3]].
  - unfold StateNetwork_forward. rewrite Hnet. cbn [rbind]. unfold cat1.
    unfold timestep_planes at 1. rewrite length_map.
    replace (length feat =? length timestep) with true
      by (symmetry; apply Nat.eqb_eq; lia).
    destruct Hf as [|sample feat Hs Hf].
    + destruct timestep; [reflexivity|simpl in *; lia].
    + unfold size2, size3. cbn [hd].
      destruct (sample_sizes _ _ _ _ Hs Hc) as [-> Hw]. rewrite (Hw Hh).
      reflexivity.
  - rewrite length_zip_with. unfold timestep_planes. rewrite length_map. lia.
Qed.

Lemma feature_size_7 h : feature_size h = 7 <-> 58 <= h <= 65.
Proof. unfold feature_size. lia. Qed.

(** The embedding of a batch of images whose sides are within 58..65. *)
Lemma state_network_hidden cin oc s b h w image cur_time :
  state_network_built_for cin oc s -> 0 < cin -> 0 < oc ->
  shape4 b cin h w image -> length cur_time = b ->
  58 <= h <= 65 -> 58 <= w <= 65 ->
  exists hidden,
    StateNetwork_forward s image cur_time = Ok hidden /\
    shape4 b (oc + 1) 7 7 hidden.
Proof.
  intros Hs Hcin Hoc Himg Hlen Hh Hw.
  destruct (net_ok cin oc s b h w image Hs Hcin Hoc Himg) as (feat & Hnet & Hf);
    try lia.
  rewrite (proj2 (feature_size_7 h) Hh), (proj2 (feature_size_7 w) Hw) in Hf.
  destruct (state_network_cat s image cur_time feat b oc 7 7 Hnet Hf)
    as (hidden & Hfw & Hshape & _); try lia.
  exists hidden. auto.
Qed.

(** With a first embedding whose planes do not have 49 entries, the loop of
    the uniform optimizer raises on its first pass. *)
Lemma uniform_run_plane_mismatch oc h w a emb hidden g :
  built_for oc a -> (0 < num_uniform a)%Z -> (0 <= action_size a)%Z ->
  shape3 (oc + 1) h w emb -> h * w <> 7 * 7 ->
  fst (_uniform_optimizer a (emb :: hidden) g) = Err ShapeMismatch.
Proof.
  intros Hb Hn Ha Hemb Hne.
  unfold _uniform_optimizer, bind, lift.
  rewrite zeros2_ok by lia. rewrite uniform_samples_spec by lia.
  cbn [length seq map uniform_loop fst]. unfold uniform_step, uniform_best.
  cbn [drop take lookup list_lookup]. rewrite take_0, expand_dim_single by lia.
  cbn [rbind].
  rewrite (forward_q_plane_mismatch oc (Z.to_nat (num_uniform a)) h w a); try assumption.
  - reflexivity.
  - lia.
  - apply shape4_replicate, Hemb.
  - apply uniform_candidates_shape.
Qed.

(** X15. The state network accepts exactly the images whose sides are both
    at least 10: their features have [out_channels] channels of planes of
    [feature_size h] by [feature_size w]; a smaller image leaves a pooling
    or convolution window without room, and the network raises. *)
Theorem state_network_image_sizes cin cout s b h w image :
  state_network_built_for cin cout s -> 0 < cin -> 0 < cout -> 0 < b ->
  shape4 b cin h w image ->
  (10 <= h /\ 10 <= w ->
   exists feat,
     StateNetwork_net s image = Ok feat /\
     shape4 b cout (feature_size h) (feature_size w) feat) /\
  (h < 10 \/ w < 10 -> StateNetwork_net s image = Err ShapeMismatch).
Proof.
  intros Hs Hcin Hcout Hb Himg. split.
  - intros [Hh Hw]. apply (net_ok cin); assumption.
  - intros Hsmall. apply (net_small cin cout s b h w); assumption.
Qed.

Lemma state_network_image_sizes_witness :
  (10 <= 64 /\ 10 <= 64 ->
   exists feat,
     StateNetwork_net DemoNet.state_network (DemoNet.image 2 64 64) = Ok feat /\
     shape4 2 1 (feature_size 64) (feature_size 64) feat) /\
  (64 < 10 \/ 64 < 10 ->
   StateNetwork_net DemoNet.state_network (DemoNet.image 2 64 64) = Err ShapeMismatch).
Proof.
  apply (state_network_image_sizes 1 1 DemoNet.state_network 2 64 64
           (DemoNet.image 2 64 64)).
  - repeat split.
  - lia.
  - lia.
  - lia.
  - apply shape4_replicate. split; [reflexivity|]. constructor; [|constructor].
    split; [apply length_replicate|]. apply Forall_replicate, length_replicate.
Defined.

(** X16. [StateNetwork.forward] appends the time step as one more channel:
    sample [n] of the result is sample [n] of the features followed by one
    plane filled with the time step of sample [n]. *)
Theorem state_network_appends_time s image timestep feat b c h w :
  StateNetwork_net s image = Ok feat -> shape4 b c h w feat ->
  0 < c -> 0 < h -> length timestep = b ->
  exists hidden,
    StateNetwork_forward s image timestep = Ok hidden /\
    shape4 b (c + 1) h w hidden /\
    Forall3 (fun sample t out => out = sample ++ [replicate h (replicate w t)])
            feat timestep hidden.
Proof. apply state_network_cat. Qed.

Lemma state_network_appends_time_witness :
  exists hidden,
    StateNetwork_forward DemoNet.state_network (DemoNet.image 2 10 11)
                         [F32.zero; F32.one] = Ok hidden /\
    shape4 2 (1 + 1) 1 1 hidden /\
    Forall3 (fun sample t out => out = sample ++ [replicate 1 (replicate 1 t)])
            [[[[F32.one]]]; [[[F32.one]]]] [F32.zero; F32.one] hidden.
Proof.
  apply (state_network_appends_time DemoNet.state_network (DemoNet.image 2 10 11)
           [F32.zero; F32.one] [[[[F32.one]]]; [[[F32.one]]]] 2 1 1 1).
  - vm_compute. reflexivity.
  - split; [reflexivity|]. repeat constructor.
  - lia.
  - lia.
  - reflexivity.
Defined.

(** X17. The time steps are not broadcast over the images: unless there is
    one time step per image, [torch.cat] raises, and [choose_action] and
    [forward] with it, before any action is sampled. *)
Theorem time_batch_mismatch a s image cur_time feat use_cem action g :
  state_net a = StateNetwork_forward s ->
  StateNetwork_net s image = Ok feat ->
  length cur_time <> length feat ->
  choose_action a image cur_time use_cem g = (Err ShapeMismatch, g) /\
  forward a image cur_time action g = (Err ShapeMismatch, g).
Proof.
  intros Ha Hnet Hlen.
  assert (H : state_net a image cur_time = Err ShapeMismatch).
  { rewrite Ha. unfold StateNetwork_forward. rewrite Hnet. cbn [rbind].
    unfold cat1, timestep_planes. rewrite length_map.
    destruct (Nat.eqb_spec (length feat) (length cur_time)); [lia|reflexivity]. }
  unfold choose_action, forward, bind, lift. rewrite H. split; reflexivity.
Qed.

Lemma time_batch_mismatch_witness :
  choose_action (DemoNet.agent 4 3 2 2 Demo.minus_one F32.one)
                (DemoNet.image 2 10 11) [F32.zero] true Demo.gen
  = (Err ShapeMismatch, Demo.gen) /\
  forward (DemoNet.agent 4 3 2 2 Demo.minus_one F32.one)
          (DemoNet.image 2 10 11) [F32.zero] None Demo.gen
  = (Err ShapeMismatch, Demo.gen).
Proof.
  apply (time_batch_mismatch (DemoNet.agent 4 3 2 2 Demo.minus_one F32.one)
           DemoNet.state_network (DemoNet.image 2 10 11) [F32.zero]
           [[[[F32.one]]]; [[[F32.one]]]] true None Demo.gen).
  - reflexivity.
  - vm_compute. reflexivity.
  - simpl. lia.
Defined.

Lemma built_for_demo_net n_uniform n_cem iter elite lo hi :
  built_for 1 (DemoNet.agent n_uniform n_cem iter elite lo hi).
Proof. repeat split. Qed.

Lemma valid_config_demo_net :
  valid_config (DemoNet.agent 4 3 2 2 Demo.minus_one F32.one).
Proof. unfold valid_config. simpl. repeat split; lia. Qed.

Lemma shape4_demo_image b h w : shape4 b 1 h w (DemoNet.image b h w).
Proof.
  apply shape4_replicate. split; [reflexivity|]. constructor; [|constructor].
  split; [apply length_replicate|]. apply Forall_replicate, length_replicate.
Qed.



(** X19. Images of other sizes are rejected: when a side is below 10 the
    state network raises, and when the feature planes do not have 7 * 7
    entries [fc1] does, so that [forward] and the uniform optimizer
    raise. *)
Theorem agent_rejects_image_sizes cin oc a s b h w image cur_time g :
  state_net a = StateNetwork_forward s -> state_network_built_for cin oc s ->
  built_for oc a -> valid_config a -> 0 < cin -> 0 < oc -> 0 < b ->
  shape4 b cin h w image -> length cur_time = b ->
  h < 10 \/ w < 10 \/ feature_size h * feature_size w <> 7 * 7 ->
  fst (forward a image cur_time None g) = Err ShapeMismatch /\
  (forall act, shape2 b (width a) act ->
     fst (forward a image cur_time (Some act) g) = Err ShapeMismatch) /\
  fst (choose_action a image cur_time false g) = Err ShapeMismatch.
Proof.
  intros Ha Hs Hb (Hsize & Hn & _) Hcin Hoc Hpos Himg Hlen Hbad.
  destruct (Nat.lt_ge_cases h 10) as [Hh|Hh];
    [|destruct (Nat.lt_ge_cases w 10) as [Hw|Hw]].
  1,2: assert (Hnet : state_net a image cur_time = Err ShapeMismatch)
         by (rewrite Ha; unfold StateNetwork_forward;
             rewrite (net_small cin oc s b h w image Hs Hcin Hoc Hpos Himg);
             [reflexivity|lia]);
       unfold forward, choose_action, bind, lift; rewrite Hnet;
       repeat split; reflexivity.
  assert (Hne : feature_size h * feature_size w <> 7 * 7) by lia.
  destruct (net_ok cin oc s b h w image Hs Hcin Hoc Himg Hh Hw) as (feat & Hnet & Hf).
  destruct (state_network_cat s image cur_time feat b oc _ _ Hnet Hf Hoc)
    as (hidden & Hfw & Hshape & _); [unfold feature_size; lia|exact Hlen|].
  rewrite <- Ha in Hfw.
  destruct Hshape as [Hhl Hhs].
  destruct hidden as [|emb hidden]; [simpl in Hhl; lia|].
  pose proof (Forall_inv Hhs) as Hemb.
  pose proof (uniform_run_plane_mismatch oc _ _ a emb hidden g Hb Hn ltac:(lia) Hemb Hne)
    as Hrun.
  split; [|split].
  - unfold forward, bind, lift. rewrite Hfw.
    destruct (_uniform_optimizer a (emb :: hidden) g) as [[acts|e] g'];
      simpl in Hrun; [discriminate|]. injection Hrun as ->. reflexivity.
  - intros act Hact. unfold forward, bind, lift, ret. rewrite Hfw.
    rewrite (forward_q_plane_mismatch oc b (feature_size h) (feature_size w) a
               (emb :: hidden) act Hb Hpos (conj Hhl Hhs) Hact Hne).
    reflexivity.
  - unfold choose_action, bind, lift. rewrite Hfw. exact Hrun.
Qed.

Lemma agent_rejects_image_sizes_witness :
  fst (forward (DemoNet.agent 4 3 2 2 Demo.minus_one F32.one)
               (DemoNet.image 1 32 32) [F32.zero] None Demo.gen)
  = Err ShapeMismatch /\
  (forall act, shape2 1 1 act ->
     fst (forward (DemoNet.agent 4 3 2 2 Demo.minus_one F32.one)
                  (DemoNet.image 1 32 32) [F32.zero] (Some act) Demo.gen)
     = Err ShapeMismatch) /\
  fst (choose_action (DemoNet.agent 4 3 2 2 Demo.minus_one F32.one)
                     (DemoNet.image 1 32 32) [F32.zero] false Demo.gen)
  = Err ShapeMismatch.
Proof.
  apply (agent_rejects_image_sizes 1 1 (DemoNet.agent 4 3 2 2 Demo.minus_one F32.one)
           DemoNet.state_network 1 32 32 (DemoNet.image 1 32 32) [F32.zero] Demo.gen).
  - reflexivity.
  - repeat split.
  - apply built_for_demo_net.
  - apply valid_config_demo_net.
  - lia.
  - lia.
  - lia.
  - apply shape4_demo_image.
  - reflexivity.
  - right. right. vm_compute. lia.
Defined.

(** ** Batches, sample by sample *)

(** Two stages that each work element by element succeed together exactly
    when their composition succeeds on every element. *)
Lemma rmapM_fuse {A B C} (f : A -> result B) (g : B -> result C) l zs :
  (let? ys := rmapM f l in rmapM g ys) = Ok zs <->
  rmapM (fun x => let? y := f x in g y) l = Ok zs.
Proof.
  revert zs. induction l as [|x l IH]; intros zs; [reflexivity|].
  rewrite rbind_Ok, rmapM_cons_Ok. split.
  - intros (ys & Hys & Hzs).
    apply rmapM_cons_Ok in Hys as (y & ys' & -> & Hy & Hys').
    apply rmapM_cons_Ok in Hzs as (z & zs' & -> & Hz & Hzs').
    exists z, zs'. split; [reflexivity|]. split.
    + rewrite Hy. exact Hz.
    + apply IH. rewrite Hys'. exact Hzs'.
  - intros (z & zs' & -> & Hz & Hzs').
    apply rbind_Ok in Hz as (y & Hy & Hz).
    apply IH, rbind_Ok in Hzs' as (ys' & Hys' & Hzs').
    exists (y :: ys'). split.
    + apply rmapM_cons_Ok. exists y, ys'. auto.
    + apply rmapM_cons_Ok. exists z, zs'. auto.
Qed.

Lemma rmapM_map_in {A B C} (h : A -> B) (g : B -> result C) l :
  rmapM g (map h l) = rmapM (fun x => g (h x)) l.
Proof.
  induction l as [|x l IH]; simpl; [reflexivity|]. rewrite IH. reflexivity.
Qed.

Lemma rbind_Ok_ext {A B} (r : result A) (f g : A -> result B) z :
  (forall x z, f x = Ok z <-> g x = Ok z) ->
  (rbind r f = Ok z <-> rbind r g = Ok z).
Proof. intros H. destruct r as [x|e]; simpl; [apply H|reflexivity]. Qed.

Lemma rmapM_Ok_ext {A B} (f g : A -> result B) l zs :
  (forall x z, f x = Ok z <-> g x = Ok z) ->
  (rmapM f l = Ok zs <-> rmapM g l = Ok zs).
Proof.
  intros H. rewrite !rmapM_Forall2. split; intros HF;
    (eapply Forall2_impl; [exact HF|]); intros x z; apply H.
Qed.

(** [self.net] works image by image. *)
Lemma net_per_sample s image feat :
  StateNetwork_net s image = Ok feat <-> rmapM (net_sample s) image = Ok feat.
Proof.
  unfold StateNetwork_net, nn.conv2d, nn.max_pool2d, nn.relu4.
  set (P := fun x : Tensor3 => rmapM nn.max_pool_plane (map torch.relu x)).
  set (F1 := nn.conv2d_sample (conv1 s)).
  set (F2 := nn.conv2d_sample (conv2 s)).
  set (F3 := nn.conv2d_sample (conv3 s)).
  assert (HP : forall x, rmapM (rmapM nn.max_pool_plane) (map (map torch.relu) x)
                         = rmapM P x).
  { intros x. exact (rmapM_map_in (map torch.relu) (rmapM nn.max_pool_plane) x). }
  transitivity
    ((let? x := rmapM F1 image in
      let? x := rmapM P x in
      let? x := rmapM F2 x in
      let? x := rmapM P x in
      let? x := rmapM F3 x in rmapM P x) = Ok feat).
  { destruct (rmapM F1 image) as [x1|e]; [|reflexivity]. cbn [rbind]. rewrite HP.
    destruct (rmapM P x1) as [x2|e]; [|reflexivity]. cbn [rbind].
    destruct (rmapM F2 x2) as [x3|e]; [|reflexivity]. cbn [rbind]. rewrite HP.
    destruct (rmapM P x3) as [x4|e]; [|reflexivity]. cbn [rbind].
    destruct (rmapM F3 x4) as [x5|e]; [|reflexivity]. cbn [rbind]. rewrite HP.
    reflexivity. }
  set (G5 := fun x => let? y := F3 x in P y).
  set (G4 := fun x => let? y := P x in G5 y).
  set (G3 := fun x => let? y := F2 x in G4 y).
  set (G2 := fun x => let? y := P x in G3 y).
  assert (H5 : forall x z, (let? y := rmapM F3 x in rmapM P y) = Ok z
                           <-> rmapM G5 x = Ok z)
    by (intros; apply rmapM_fuse).
  assert (H4 : forall x z,
             (let? x := rmapM P x in let? y := rmapM F3 x in rmapM P y) = Ok z
             <-> rmapM G4 x = Ok z).
  { intros x z. rewrite (rbind_Ok_ext _ _ (rmapM G5) z H5). apply rmapM_fuse. }
  assert (H3 : forall x z,
             (let? x := rmapM F2 x in
              let? x := rmapM P x in let? y := rmapM F3 x in rmapM P y) = Ok z
             <-> rmapM G3 x = Ok z).
  { intros x z. rewrite (rbind_Ok_ext _ _ (rmapM G4) z H4). apply rmapM_fuse. }
  assert (H2 : forall x z,
             (let? x := rmapM P x in
              let? x := rmapM F2 x in
              let? x := rmapM P x in let? y := rmapM F3 x in rmapM P y) = Ok z
             <-> rmapM G2 x = Ok z).
  { intros x z. rewrite (rbind_Ok_ext _ _ (rmapM G3) z H3). apply rmapM_fuse. }
  rewrite (rbind_Ok_ext _ _ (rmapM G2) feat H2). rewrite rmapM_fuse.
  reflexivity.
Qed.

Lemma net_single s img :
  StateNetwork_net s [img] = let? f := net_sample s img in Ok [f].
Proof.
  unfold StateNetwork_net, net_sample, nn.conv2d, nn.max_pool2d, nn.relu4.
  cbn [rmapM].
  destruct (nn.conv2d_sample (conv1 s) img) as [x1|e]; [|reflexivity].
  cbn [rbind map rmapM].
  destruct (rmapM nn.max_pool_plane (map torch.relu x1)) as [x2|e]; [|reflexivity].
  cbn [rbind map rmapM].
  destruct (nn.conv2d_sample (conv2 s) x2) as [x3|e]; [|reflexivity].
  cbn [rbind map rmapM].
  destruct (rmapM nn.max_pool_plane (map torch.relu x3)) as [x4|e]; [|reflexivity].
  cbn [rbind map rmapM].
  destruct (nn.conv2d_sample (conv3 s) x4) as [x5|e]; [|reflexivity].
  cbn [rbind map rmapM].
  destruct (rmapM nn.max_pool_plane (map torch.relu x5)) as [x6|e]; reflexivity.
Qed.

Lemma net_sample_single s img f :
  net_sample s img = Ok f <-> StateNetwork_net s [img] = Ok [f].
Proof.
  rewrite net_single. split.
  - intros ->. reflexivity.
  - intros H. apply rbind_Ok in H as (f' & Hf & [= <-]). exact Hf.
Qed.

(** [StateNetwork.forward] on a batch, image by image. *)
Lemma state_network_forward_rows cin oc s b h w image ts hidden :
  state_network_built_for cin oc s -> 0 < cin -> 0 < oc ->
  shape4 b cin h w image -> length ts = b ->
  StateNetwork_forward s image ts = Ok hidden ->
  length hidden = b /\
  forall n img t,
    image !! n = Some img -> ts !! n = Some t ->
    exists hs, hidden !! n = Some hs /\ StateNetwork_forward s [img] [t] = Ok [hs].
Proof.
  intros Hs Hcin Hoc Himg Hlen Hfw.
  destruct (Nat.eq_dec b 0) as [->|Hb].
  { destruct Himg as [Hil _]. destruct image; [|discriminate].
    destruct ts; [|discriminate]. injection Hfw as <-.
    split; [reflexivity|]. intros n img t Hn. destruct n; discriminate. }
  pose proof Hfw as Hfw0. unfold StateNetwork_forward in Hfw0.
  apply rbind_Ok in Hfw0 as (feat & Hnet & _).
  destruct (Nat.lt_ge_cases h 10) as [Hh|Hh].
  { rewrite (net_small cin oc s b h w image) in Hnet; (discriminate || assumption || lia). }
  destruct (Nat.lt_ge_cases w 10) as [Hw|Hw].
  { rewrite (net_small cin oc s b h w image) in Hnet; (discriminate || assumption || lia). }
  destruct (net_ok cin oc s b h w image Hs Hcin Hoc Himg Hh Hw) as (feat' & Hnet' & Hf).
  rewrite Hnet in Hnet'. injection Hnet' as <-.
  assert (Hfh : 0 < feature_size h) by (unfold feature_size; lia).
  destruct (state_network_cat s image ts feat b oc _ _ Hnet Hf Hoc Hfh Hlen)
    as (hidden' & Hfw' & [Hhl _] & H3).
  rewrite Hfw in Hfw'. injection Hfw' as <-.
  split; [exact Hhl|]. intros n img t Himg_n Ht.
  apply net_per_sample, rmapM_Forall2 in Hnet.
  destruct (Forall2_lookup_l _ _ _ _ _ Hnet Himg_n) as (f & Hfn & Hsample).
  destruct (Forall3_lookup_l _ _ _ _ _ _ H3 Hfn) as (t' & hs & Ht' & Hhs & ->).
  rewrite Ht in Ht'. injection Ht' as <-.
  exists (f ++ [replicate (feature_size h) (replicate (feature_size w) t)]).
  split; [exact Hhs|].
  unfold StateNetwork_forward. rewrite net_single, Hsample. cbn [rbind].
  unfold size2, size3. cbn [hd].
  destruct Hf as [_ Hf]. pose proof (Forall_lookup_1 _ _ _ _ Hf Hfn) as Hshape.
  destruct (sample_sizes _ _ _ _ Hshape Hoc) as [-> Hwd]. rewrite (Hwd Hfh).
  reflexivity.
Qed.



